(** * schema-validator: a shallow embedding of [src/lib/schema.js]

    The development models the JavaScript values the validator receives, the
    [Schema] tree built by the constructor, the [Transformers] table and the
    parse pipeline ([parse], [_run], [_parseNested], [structureValidation]),
    and states the properties of the specification against that model.

    Conventions of the embedding:
    - a thrown exception is the [Throw] case of [result];
    - a plain object is the list of its own enumerable properties in
      enumeration order (property names are ordinary names: the reordering
      of integer-like keys is not modelled); what a value inherits through
      its prototype chain is taken from the host, and every object's chain
      ends in the standard [Object.prototype];
    - numbers are the integers plus NaN;
    - a regular expression has neither the [g] nor the [y] flag, so its
      [test] does not depend on [lastIndex];
    - what the code delegates to the JavaScript runtime on host objects
      (calling a function value, inherited properties,
      [RegExp.prototype.test], [Date.parse], the conversion of strings to
      numbers and of objects to primitives) is taken from a [Host] record;
      the functions of the host return. *)

From Stdlib Require Import ZArith Bool Lia Ascii String.
From stdpp Require Import base list strings pretty gmap.

Set Warnings "-register-all".
Open Scope string_scope.
Open Scope list_scope.

(** ** JavaScript values *)

Inductive num : Type :=
| NaN
| Fin (z : Z).

Inductive value : Type :=
| VUndefined
| VNull
| VBool (b : bool)
| VNumber (n : num)
| VString (s : string)
| VObject (props : list (string * value))
| VArray (items : list value)
| VFunction (fname : string)
| VDate (time : num)
| VRegExp (source : string).

(** A [VObject] lists the own enumerable properties of a plain object, whose
    prototype is [Object.prototype]; a [VRegExp] is a regular expression
    without the [g] and [y] flags. *)

(** [!v] is [negb (truthy v)]. *)
Definition truthy (v : value) : bool :=
  match v with
  | VUndefined | VNull => false
  | VBool b => b
  | VNumber NaN => false
  | VNumber (Fin z) => negb (Z.eqb z 0)
  | VString s => negb (String.eqb s "")
  | VObject _ | VArray _ | VFunction _ | VDate _ | VRegExp _ => true
  end.

Definition falsy (v : value) : bool := negb (truthy v).

Inductive jstype : Type :=
| TyUndefined | TyObject | TyBoolean | TyNumber | TyString | TyFunction.

Definition typeof (v : value) : jstype :=
  match v with
  | VUndefined => TyUndefined
  | VNull => TyObject
  | VBool _ => TyBoolean
  | VNumber _ => TyNumber
  | VString _ => TyString
  | VObject _ | VArray _ | VDate _ | VRegExp _ => TyObject
  | VFunction _ => TyFunction
  end.

Definition jstype_eqb (a b : jstype) : bool :=
  match a, b with
  | TyUndefined, TyUndefined | TyObject, TyObject | TyBoolean, TyBoolean
  | TyNumber, TyNumber | TyString, TyString | TyFunction, TyFunction => true
  | _, _ => false
  end.

Definition is_undefined (v : value) : bool :=
  match v with VUndefined => true | _ => false end.

(** ** Own properties *)

(** Decimal spelling of an array index. *)
Definition indexKey (i : nat) : string := pretty (N.of_nat i).

(** First binding of a key in a property list. *)
Fixpoint assoc {A : Type} (k : string) (kvs : list (string * A)) : option A :=
  match kvs with
  | [] => None
  | (k', a) :: rest => if String.eqb k' k then Some a else assoc k rest
  end.

(** [Object.keys(v)]. *)
Definition ownKeys (v : value) : list string :=
  match v with
  | VObject kvs => map fst kvs
  | VArray items => map indexKey (seq 0 (length items))
  | _ => []
  end.

(** Writing the own property [k] of an object on its property list: an
    existing key keeps its position, a new one is appended. *)
Fixpoint assign {A : Type} (k : string) (v : A) (kvs : list (string * A))
  : list (string * A) :=
  match kvs with
  | [] => [(k, v)]
  | (k', v') :: rest =>
      if String.eqb k' k then (k', v) :: rest else (k', v') :: assign k v rest
  end.

(** [Object.assign(o, { [k]: v })] on the property list of [o].  The write
    is an ordinary assignment, so the key [__proto__] reaches the accessor
    inherited from [Object.prototype], which gives [o] no own property. *)
Definition objectAssign {A : Type} (k : string) (v : A)
    (kvs : list (string * A)) : list (string * A) :=
  if String.eqb k "__proto__" then kvs else assign k v kvs.

(** The own property [k] of [obj], [undefined] when there is none.  (This
    is [obj[k]] for a key no standard prototype defines, such as [type].) *)
Definition ownProp (obj : value) (k : string) : value :=
  match obj with
  | VObject kvs => default VUndefined (assoc k kvs)
  | VArray items =>
      if String.eqb k "length" then VNumber (Fin (Z.of_nat (length items)))
      else default VUndefined
             (assoc k (zip (map indexKey (seq 0 (length items))) items))
  | _ => VUndefined
  end.

Definition hasOwnProperty (obj : value) (k : string) : bool :=
  match obj with
  | VObject kvs => bool_decide (is_Some (assoc k kvs))
  | VArray items =>
      String.eqb k "length"
      || bool_decide (k ∈ map indexKey (seq 0 (length items)))
  | _ => false
  end.

(** ** The host environment *)

Record Host : Type := mkHost {
  (** calling the function value named [f] with the given arguments *)
  hostCall : string -> list value -> value;
  (** [o.m(args)] when the property [m] of [o] is the function value named
      [f]: [hostMethod f o args] is what the call returns, any value *)
  hostMethod : string -> value -> list value -> value;
  (** [o[k]] when [k] is not an own property of [o] in the model: what the
      prototype chain of [o] gives, [undefined] when it has no such name *)
  hostInherited : value -> string -> value;
  (** [re.test(s)] for the regular expression with the given source *)
  hostRegexTest : string -> string -> bool;
  (** [Number(s)] on a string *)
  hostStringToNumber : string -> num;
  (** the conversion of an object, array, function, date or regexp to a
      primitive, with the hint string ([true]) or number ([false]); [None]
      when the conversion throws a TypeError, as for [{toString: 1}] *)
  hostToPrimitive : bool -> value -> option value;
  (** [Date.parse(s)] on a string *)
  hostDateParse : string -> num;
  (** the [message] an [Error] gets from a message that is not a string *)
  hostMessage : value -> string
}.

(** [obj[k]] for a value that is neither [undefined] nor [null]: the own
    property when there is one, what the value inherits otherwise. *)
Definition getProp (h : Host) (obj : value) (k : string) : value :=
  if hasOwnProperty obj k then ownProp obj k else hostInherited h obj k.

(** ** Schema nodes and errors *)

(** A node of the schema tree.  [parentPath] stands for the [parent]
    back-reference: it is [parent.fullPath], or [""] without a parent, which
    is all the code reads through [parent].  [children] is [None] for a leaf
    ([this.children] is never assigned). *)
Inductive Schema : Type :=
| mkSchema (name : string) (parentPath : string) (type : string)
           (settings : list (string * value))
           (children : option (list Schema)).

Definition name (s : Schema) : string :=
  match s with mkSchema n _ _ _ _ => n end.
Definition parentPath (s : Schema) : string :=
  match s with mkSchema _ p _ _ _ => p end.
Definition type (s : Schema) : string :=
  match s with mkSchema _ _ t _ _ => t end.
Definition settings (s : Schema) : list (string * value) :=
  match s with mkSchema _ _ _ st _ => st end.
Definition children (s : Schema) : option (list Schema) :=
  match s with mkSchema _ _ _ _ c => c end.

(** [this.settings.k] *)
Definition setting (s : Schema) (k : string) : value :=
  default VUndefined (assoc k (settings s)).

(** Thrown values: [new Error(m)], an error raised by the runtime itself,
    and [new ValidationError(m, { errors, value, field })]. *)
Inductive error : Type :=
| Error (message : string)
| TypeError (message : string)
| ValidationError (message : string) (errors : list error)
                  (value : value) (field : option Schema).

Definition message (e : error) : string :=
  match e with
  | Error m | TypeError m | ValidationError m _ _ _ => m
  end.

(** [err.field] *)
Definition field (e : error) : option Schema :=
  match e with
  | ValidationError _ _ _ f => f
  | _ => None
  end.

Inductive result (A : Type) : Type :=
| Ok (a : A)
| Throw (e : error).
Arguments Ok {A} a.
Arguments Throw {A} e.

Definition bind {A B : Type} (r : result A) (k : A -> result B) : result B :=
  match r with
  | Ok a => k a
  | Throw e => Throw e
  end.

Notation "'let*' x ':=' r 'in' k" := (bind r (fun x => k))
  (at level 10, x name, r at level 100, k at level 200).

(** ** Collaborators of [schema.js] that live in other modules *)

(** Modelled from the spec: the [ValidationError] class of
    [./validation-error.js] is an [Error] carrying the child errors (an empty
    list when none is given), the offending value and the field; it is the
    [ValidationError] constructor of [error] above, built here from the
    optional members of the options object. *)
Definition newValidationError (msg : string) (errors : option (list error))
    (v : value) (fld : option Schema) : error :=
  ValidationError msg (default [] errors) v fld.

(** Modelled from the spec: [propertiesRestricted] of
    [utils/properties-restricted] checks that an object's keys are a subset
    of an allowed set; a value that is not an object does not pass. *)
Definition propertiesRestricted (obj : value) (properties : list string)
  : bool :=
  match typeof obj with
  | TyObject => forallb (fun k => bool_decide (k ∈ properties)) (ownKeys obj)
  | _ => false
  end.

(** A nested mapping: a non-null object that is not an array. *)
Definition isMapping (v : value) : bool :=
  match v with
  | VObject _ => true
  | _ => false
  end.

(** Modelled from the spec: [obj2dot] of [utils/obj-2-dot] flattens a nested
    mapping into its dotted-path keys, depth first, in key order
    ([test/utils.test.js]: [{name, address: {city, zip, line1}}] gives
    [name, address.city, address.zip, address.line1]). *)
Fixpoint obj2dotFrom (parent : string) (obj : value) : list string :=
  match obj with
  | VObject kvs =>
      (fix props (l : list (string * value)) : list string :=
         match l with
         | [] => []
         | (prop, v) :: rest =>
             (if isMapping v
              then obj2dotFrom (parent +:+ prop +:+ ".") v
              else [parent +:+ prop]) ++ props rest
         end) kvs
  | VArray items =>
      (fix elems (i : nat) (l : list value) : list string :=
         match l with
         | [] => []
         | v :: rest =>
             (if isMapping v
              then obj2dotFrom (parent +:+ indexKey i +:+ ".") v
              else [parent +:+ indexKey i]) ++ elems (S i) rest
         end) 0%nat items
  | _ => []
  end.

Definition obj2dot (obj : value) : list string := obj2dotFrom "" obj.

(** ** Static helpers of [Schema] *)

(** [Schema.castThrowable(value, error)]: a two-element array is taken as
    the pair [[value, error]]. *)
Definition castThrowable (v : value) (error : value) : value * value :=
  match v with
  | VArray [a; b] => (a, b)
  | _ => (v, error)
  end.

(** The [message] of an error built from [m]. *)
Definition messageOf (h : Host) (m : value) : string :=
  match m with
  | VString s => s
  | VUndefined => ""
  | _ => hostMessage h m
  end.

(** [Schema.guessType(value)].  [null] makes [value.type] throw. *)
Fixpoint guessType (v : value) : result string :=
  match v with
  | VFunction f => Ok f
  | VNull => Throw (TypeError "Cannot read property 'type' of null")
  | VObject kvs =>
      (fix find (l : list (string * value)) : result string :=
         match l with
         | [] => Ok "Schema"
         | (k, t) :: rest =>
             if String.eqb k "type"
             then if truthy t then guessType t else Ok "Schema"
             else find rest
         end) kvs
  | VString s => Ok s
  | _ => Ok "Schema"
  end.

(** [Schema.isNested(obj)]: [typeof obj === 'object' && !obj.type]. *)
Definition isNested (obj : value) : result bool :=
  match obj with
  | VNull => Throw (TypeError "Cannot read property 'type' of null")
  | _ => Ok (jstype_eqb (typeof obj) TyObject
             && falsy (ownProp obj "type"))
  end.

(** [get fullPath] of a node named [nm] whose parent has full path [pp]. *)
Definition joinPath (pp nm : string) : string :=
  (if String.eqb pp "" then "" else pp +:+ ".") +:+ nm.

Definition fullPath (s : Schema) : string := joinPath (parentPath s) (name s).

(** The own properties a leaf keeps as settings:
    [Object.assign({}, schema)] followed by [delete this.settings.type]. *)
Definition leafSettings (schema : value) : list (string * value) :=
  match schema with
  | VObject kvs => filter (fun kv => negb (String.eqb kv.1 "type")) kvs
  | VArray items =>
      zip (map indexKey (seq 0 (length items))) items
  | _ => []
  end.

(** ** Construction *)

(** [new Schema(schema, { name, parent })], with [nm] for [name || ''] and
    [pp] for the full path of [parent], for a definition made of plain
    values.  A definition that holds an already built [Schema] is outside
    the value model; what [_parseSchema] does with one is [adoptSchema]
    below. *)
Fixpoint newSchema (schema : value) (nm pp : string) : result Schema :=
  let leaf :=
    let* ty := guessType schema in
    Ok (mkSchema nm pp ty
          (match typeof schema with
           | TyObject => leafSettings schema
           | _ => []
           end) None) in
  match schema with
  | VNull => Throw (TypeError "Cannot read property 'type' of null")
  | VObject kvs =>
      if falsy (ownProp schema "type") then
        (* [_parseSchema]: one child per key, in key order *)
        let* cs :=
          (fix build (l : list (string * value)) : result (list Schema) :=
             match l with
             | [] => Ok []
             | (prop, d) :: rest =>
                 let* c := newSchema d prop (joinPath pp nm) in
                 let* cs := build rest in
                 Ok (c :: cs)
             end) kvs in
        Ok (mkSchema nm pp "Schema" [] (Some cs))
      else leaf
  | VArray items =>
      let* cs :=
        (fix build (i : nat) (l : list value) : result (list Schema) :=
           match l with
           | [] => Ok []
           | d :: rest =>
               let* c := newSchema d (indexKey i) (joinPath pp nm) in
               let* cs := build (S i) rest in
               Ok (c :: cs)
           end) 0%nat items in
      Ok (mkSchema nm pp "Schema" [] (Some cs))
  | VDate _ | VRegExp _ => Ok (mkSchema nm pp "Schema" [] (Some []))
  | _ => leaf
  end.

(** The other branch of [_parseSchema]: a property of the definition that
    holds an already built [Schema] is not built again but copied, with
    [name], [parent] and [settings] replaced by the property name, the
    branch and the settings of the branch.  The copy keeps the [type] of the
    instance and shares its [children], whose [parent] is still the
    instance they were built under. *)
Definition adoptSchema (this : Schema) (prop : string) (inst : Schema)
  : Schema :=
  mkSchema prop (fullPath this) (type inst) (settings this) (children inst).

(** ** Path resolution *)

(** [get ownPaths] (of a branch). *)
Definition ownPaths (s : Schema) : list string :=
  map name (default [] (children s)).

(** [get paths] *)
Fixpoint paths (s : Schema) : list string :=
  match s with
  | mkSchema nm _ _ _ (Some cs) =>
      flat_map (fun c =>
                  map (fun path =>
                         (if String.eqb nm "" then "" else nm +:+ ".")
                         +:+ path) (paths c)) cs
  | mkSchema nm _ _ _ None => [nm]
  end.

(** The part of [pathName] before its first dot:
    [pathName.split(/\./)[0]]. *)
Fixpoint firstSegment (pathName : string) : string :=
  match pathName with
  | EmptyString => EmptyString
  | String c rest =>
      if Ascii.eqb c "."%char then EmptyString
      else String c (firstSegment rest)
  end.

(** [schemaAtPath(pathName)]: the first child named like the first segment
    of [pathName], [None] for [undefined]. *)
Definition schemaAtPath (s : Schema) (pathName : string) : option Schema :=
  List.find (fun possibleSchema =>
               String.eqb (name possibleSchema) (firstSegment pathName))
            (default [] (children s)).

(** [hasField(fieldName)] *)
Definition hasField (s : Schema) (fieldName : string) : bool :=
  bool_decide (fieldName ∈ paths s).

(** ** Errors raised by a node *)

(** [this.throwError(message, { errors, value })] *)
Definition throwError {A : Type} (h : Host) (this : Schema) (msg : value)
    (errors : option (list error)) (v : value) : result A :=
  Throw (newValidationError (messageOf h msg) errors v (Some this)).

(** ** Structural validation *)

Definition unknownFields (this : Schema) (obj : value) : list error :=
  map (fun field => Error ("Unknown property " +:+ field))
      (filter (fun field => negb (hasField this field)) (obj2dot obj)).

(** [structureValidation(obj)]; the value returned is not used by the
    caller. *)
Definition structureValidation (this : Schema) (obj : value) : result unit :=
  if falsy obj then Ok tt
  else if negb (propertiesRestricted obj (ownPaths this)) then
    Throw (newValidationError "Invalid object schema"
             (Some (unknownFields this obj)) obj None)
  else Ok tt.

(** ** Transformers *)

Definition isPrimitive (v : value) : bool :=
  match v with
  | VUndefined | VNull | VBool _ | VNumber _ | VString _ => true
  | _ => false
  end.

(** The conversion of a value to a primitive.  A date converts to its time
    value under the hint number. *)
Definition toPrimitive (h : Host) (hintString : bool) (v : value)
  : result value :=
  if isPrimitive v then Ok v
  else match v, hintString with
       | VDate t, false => Ok (VNumber t)
       | _, _ =>
           match hostToPrimitive h hintString v with
           | Some p => Ok p
           | None => Throw (TypeError "Cannot convert object to primitive value")
           end
       end.

(** The number a primitive converts to. *)
Definition numberOfPrimitive (h : Host) (p : value) : num :=
  match p with
  | VNull => Fin 0
  | VBool b => Fin (if b then 1 else 0)
  | VNumber n => n
  | VString s => hostStringToNumber h s
  | _ => NaN
  end.

(** [Number(v)] *)
Definition toNumber (h : Host) (v : value) : result num :=
  let* p := toPrimitive h false v in
  Ok (numberOfPrimitive h p).

(** The string a primitive converts to. *)
Definition stringOfPrimitive (p : value) : string :=
  match p with
  | VUndefined => "undefined"
  | VNull => "null"
  | VBool b => if b then "true" else "false"
  | VNumber NaN => "NaN"
  | VNumber (Fin z) => pretty z
  | VString s => s
  | _ => ""
  end.

(** The conversion of a value to a string, as applied by [Date.parse] and
    [RegExp.prototype.test] to their argument. *)
Definition toStringOf (h : Host) (v : value) : result string :=
  let* p := toPrimitive h true v in
  Ok (stringOfPrimitive p).

(** [a < b] on numbers: false as soon as one side is NaN. *)
Definition ltNum (a b : num) : bool :=
  match a, b with
  | Fin x, Fin y => Z.ltb x y
  | _, _ => false
  end.

(** [a < b] on primitives: two strings are compared as strings, anything
    else as numbers. *)
Definition ltPrimitive (h : Host) (pa pb : value) : bool :=
  match pa, pb with
  | VString x, VString y => String.ltb x y
  | _, _ => ltNum (numberOfPrimitive h pa) (numberOfPrimitive h pb)
  end.

(** [a < b] and [a > b]; both convert [a] first. *)
Definition lessThan (h : Host) (a b : value) : result bool :=
  let* pa := toPrimitive h false a in
  let* pb := toPrimitive h false b in
  Ok (ltPrimitive h pa pb).

Definition greaterThan (h : Host) (a b : value) : result bool :=
  let* pa := toPrimitive h false a in
  let* pb := toPrimitive h false b in
  Ok (ltPrimitive h pb pa).

Definition isNaN (n : num) : bool :=
  match n with NaN => true | Fin _ => false end.

Definition strLength (s : string) : num := Fin (Z.of_nat (String.length s)).

(** [v.length] *)
Definition lengthOf (h : Host) (v : value) : result value :=
  match v with
  | VUndefined | VNull =>
      Throw (TypeError "Cannot read property 'length' of undefined")
  | VString s => Ok (VNumber (strLength s))
  | _ => Ok (getProp h v "length")
  end.

(** [o.m(args)] for [o] neither [undefined] nor [null]. *)
Definition callMethod (h : Host) (o : value) (m : string) (args : list value)
  : result value :=
  match getProp h o m with
  | VFunction f => Ok (hostMethod h f o args)
  | _ => Throw (TypeError (m +:+ " is not a function"))
  end.

(** [v.hasOwnProperty(k)], as a condition, for [v] neither [undefined] nor
    [null]: an own property named [hasOwnProperty] is what gets called;
    without one the method is the one of [Object.prototype]. *)
Definition callHasOwnProperty (h : Host) (v : value) (k : string)
  : result bool :=
  if hasOwnProperty v "hasOwnProperty" then
    let* r := callMethod h v "hasOwnProperty" [VString k] in
    Ok (truthy r)
  else Ok (hasOwnProperty v k).

(** [regex.test(v)], as a condition. *)
Definition callTest (h : Host) (regex : value) (v : value) : result bool :=
  match regex with
  | VUndefined | VNull =>
      Throw (TypeError "Cannot read property 'test' of undefined")
  | VRegExp re =>
      let* s := toStringOf h v in
      Ok (hostRegexTest h re s)
  | _ =>
      let* r := callMethod h regex "test" [v] in
      Ok (truthy r)
  end.

(** A transformer is its [parse] method, called with the node as [this].
    No entry of the table below declares [loaders]. *)
Definition Transformer : Type := Host -> Schema -> value -> result value.

(** The names every object literal inherits from [Object.prototype]. *)
Definition objectPrototypeNames : list string :=
  ["constructor"; "__defineGetter__"; "__defineSetter__"; "hasOwnProperty";
   "__lookupGetter__"; "__lookupSetter__"; "isPrototypeOf";
   "propertyIsEnumerable"; "toString"; "valueOf"; "__proto__";
   "toLocaleString"].

Module Transformers.

(** The conversion at the head of [String.parse]: a value that is not a
    string must be an object for which [v.hasOwnProperty('toString')] holds;
    it is replaced by what [v.toString()] returns, whatever that is. *)
Definition stringOf (h : Host) (this : Schema) (v : value) : result value :=
  match v with
  | VString _ => Ok v
  | _ =>
      let* convertible :=
        match v with
        | VNull =>
            Throw (TypeError "Cannot read property 'hasOwnProperty' of null")
        | _ =>
            if jstype_eqb (typeof v) TyObject
            then callHasOwnProperty h v "toString"
            else Ok false
        end in
      if negb convertible
      then throwError h this (VString "Invalid string") None v
      else callMethod h v "toString" []
  end.

Definition String_parse : Transformer := fun h this v =>
  let* v := stringOf h this v in
  let* _ :=
    if truthy (setting this "minlength") then
      let '(minlength, error) :=
        castThrowable (setting this "minlength") (VString "Invalid minlength") in
      let* len := lengthOf h v in
      let* short := lessThan h len minlength in
      if short then throwError h this error None v else Ok tt
    else Ok tt in
  let* _ :=
    if truthy (setting this "maxlength") then
      let '(maxlength, error) :=
        castThrowable (setting this "maxlength") (VString "Invalid maxlength") in
      let* len := lengthOf h v in
      let* long := greaterThan h len maxlength in
      if long then throwError h this error None v else Ok tt
    else Ok tt in
  let* _ :=
    if truthy (setting this "regex") then
      let '(regex, error) :=
        castThrowable (setting this "regex") (VString "Invalid regex") in
      let* found := callTest h regex v in
      if negb found then throwError h this error None v else Ok tt
    else Ok tt in
  Ok v.

Definition Number_parse : Transformer := fun h _ v =>
  let* n := toNumber h v in
  if isNaN n then Throw (Error "Invalid number") else Ok (VNumber n).

(** [new Date(...)] is always an instance of [Date]: the throw of the
    transformer is dead, and what it can throw is the TypeError of
    [Date.parse] converting its argument to a string. *)
Definition Date_parse : Transformer := fun h _ v =>
  match v with
  | VNumber (Fin z) => Ok (VDate (Fin z))
  | _ =>
      let* s := toStringOf h v in
      Ok (VDate (hostDateParse h s))
  end.

Definition Function_parse : Transformer := fun _ _ v =>
  match v with
  | VFunction _ => Ok v
  | _ => Throw (Error "Invalid function")
  end.

(** What [_run] gets from [Transformers[type]] for a name the table
    inherits from [Object.prototype]: a truthy value without [loaders] and
    without [parse], so that [transformer.parse.call] throws. *)
Definition inherited_parse : Transformer := fun _ _ _ =>
  Throw (TypeError "Cannot read property 'call' of undefined").

(** [Transformers[type]]: the four entries of the table, then what the
    table inherits. *)
Definition lookup (type : string) : option Transformer :=
  if String.eqb type "String" then Some String_parse
  else if String.eqb type "Number" then Some Number_parse
  else if String.eqb type "Date" then Some Date_parse
  else if String.eqb type "Function" then Some Function_parse
  else if bool_decide (type ∈ objectPrototypeNames) then Some inherited_parse
  else None.

End Transformers.

(** ** The parse pipeline *)

(** [_run(type, v)] *)
Definition _run (h : Host) (this : Schema) (type : string) (v : value)
  : result value :=
  match Transformers.lookup type with
  | None => Throw (Error ("Don't know how to resolve " +:+ type))
  | Some transformer =>
      if is_undefined v && falsy (setting this "required") then Ok VUndefined
      else
        let* _ :=
          if falsy v && truthy (setting this "required") then
            let '(required, error) :=
              castThrowable (setting this "required")
                (VString ("Field " +:+ fullPath this +:+ " is required")) in
            if truthy required then throwError h this error None v else Ok tt
          else Ok tt in
        transformer h this v
  end.

(** The value a truthy [default] setting stands for: a function is called
    with the input, anything else is taken as it is. *)
Definition defaultValue (h : Host) (this : Schema) (v : value) : value :=
  match setting this "default" with
  | VFunction f => hostCall h f [v]
  | d => d
  end.

(** The leaf part of [parse]: default substitution
    ([this.settings.default && !v]), then [_run]. *)
Definition withDefault (h : Host) (this : Schema) (v : value) : value :=
  if truthy (setting this "default") && falsy v
  then defaultValue h this v
  else v.

Definition parseLeaf (h : Host) (this : Schema) (v : value) : result value :=
  _run h this (type this) (withDefault h this v).

(** The argument of the child's [parse]:
    [typeof obj === 'object' ? obj[schema.name] : undefined]. *)
Definition subValue (h : Host) (obj : value) (prop : string)
  : result value :=
  match obj with
  | VNull =>
      Throw (TypeError ("Cannot read property '" +:+ prop +:+ "' of null"))
  | _ =>
      match typeof obj with
      | TyObject => Ok (getProp h obj prop)
      | _ => Ok VUndefined
      end
  end.

(** What the [try] block of [_parseNested] evaluates for one own path: the
    key and the value the child produced, or what was thrown. *)
Definition parseAtPath (h : Host)
    (parseChild : Schema -> value -> result value)
    (this : Schema) (obj : value) (pathName : string)
  : result (string * value) :=
  match schemaAtPath this pathName with
  | None => Throw (TypeError "Cannot read property 'parse' of undefined")
  | Some schema =>
      let* sub := subValue h obj (name schema) in
      let* val := parseChild schema sub in
      Ok (name schema, val)
  end.

(** The [catch] block: the child errors of a non-empty [ValidationError] are
    spliced in, any other error is pushed as it is. *)
Definition collect (errors : list error) (err : error) : list error :=
  match err with
  | ValidationError _ (e :: es) _ _ => errors ++ e :: es
  | _ => errors ++ [err]
  end.

(** One iteration of [this.ownPaths.forEach] on the pair
    [(resultingObject, errors)]. *)
Definition childStep (h : Host)
    (parseChild : Schema -> value -> result value)
    (this : Schema) (obj : value)
    (acc : list (string * value) * list error) (pathName : string)
  : list (string * value) * list error :=
  match parseAtPath h parseChild this obj pathName with
  | Ok (prop, val) =>
      if is_undefined val then acc else (objectAssign prop val acc.1, acc.2)
  | Throw err => (acc.1, collect acc.2 err)
  end.

(** The part of [_parseNested] that follows the structural pre-pass: the
    walk over the own paths and the assembly of the outcome. *)
Definition parseFields (h : Host)
    (parseChild : Schema -> value -> result value)
    (this : Schema) (obj : value) : result value :=
  let '(resultingObject, errors) :=
    fold_left (childStep h parseChild this obj) (ownPaths this) ([], []) in
  match errors with
  | _ :: _ =>
      Throw (newValidationError "Data is not valid" (Some errors)
               VUndefined None)
  | [] =>
      Ok (match resultingObject with
          | [] => VUndefined
          | _ :: _ => VObject resultingObject
          end)
  end.

(** [_parseNested(obj)], with the children's [parse] as a parameter. *)
Definition _parseNested (h : Host)
    (parseChild : Schema -> value -> result value)
    (this : Schema) (obj : value) : result value :=
  let* _ := structureValidation this obj in
  parseFields h parseChild this obj.

(** The parser of the child [c] in the table of a branch's children. *)
Definition parserOf (table : list (Schema * (value -> result value)))
    (c : Schema) : value -> result value :=
  match List.find (fun e => String.eqb (name e.1) (name c)) table with
  | Some e => e.2
  | None => fun _ => Throw (TypeError "Cannot read property 'parse' of undefined")
  end.

(** [parse(v)].  The recursion goes through the table of the children's
    parsers; [parse_branch] below shows it is [_parseNested] on [parse]
    itself. *)
Fixpoint parse (h : Host) (this : Schema) (v : value) : result value :=
  match this with
  | mkSchema _ _ _ _ (Some cs) =>
      _parseNested h (parserOf (map (fun c => (c, parse h c)) cs)) this v
  | mkSchema _ _ _ _ None => parseLeaf h this v
  end.

(** ** Notions used by the statements *)

(** An error made by [structureValidation] for an unknown key. *)
Definition isStructural (e : error) : Prop :=
  exists field, e = Error ("Unknown property " +:+ field).

(** [o[k]] when [o] is the mapping a branch returned, [None] for a key it
    does not have. *)
Definition valueAt (r : value) (k : string) : option value :=
  match r with
  | VObject kvs => assoc k kvs
  | _ => None
  end.

(** Value of a string of decimal digits, [None] for any other string. *)
Fixpoint digitsValue (acc : Z) (s : string) : option Z :=
  match s with
  | EmptyString => Some acc
  | String c rest =>
      let n := Z.of_nat (nat_of_ascii c) in
      if (48 <=? n)%Z && (n <=? 57)%Z
      then digitsValue (10 * acc + (n - 48))%Z rest
      else None
  end.

(** A host for the examples: [Number] is exact on strings of decimal digits
    and NaN on the other strings; every function returns [undefined] when
    called; as a method, the function named [five] returns [5] and every
    other function the empty string; every value inherits the functions of
    [Object.prototype]; an empty array converts to the empty string and
    every other object to ["[object Object]"]; every regular expression
    matches; no string is a date. *)
Definition exampleHost : Host := {|
  hostCall := fun _ _ => VUndefined;
  hostMethod := fun f _ _ =>
    if String.eqb f "five" then VNumber (Fin 5) else VString "";
  hostInherited := fun _ k =>
    if bool_decide (k ∈ objectPrototypeNames)
       && negb (String.eqb k "__proto__")
    then VFunction k else VUndefined;
  hostRegexTest := fun _ _ => true;
  hostStringToNumber := fun s =>
    match digitsValue 0 s with Some z => Fin z | None => NaN end;
  hostToPrimitive := fun _ v =>
    Some (VString (match v with VArray [] => "" | _ => "[object Object]" end));
  hostDateParse := fun _ => NaN;
  hostMessage := fun _ => ""
|}.

(** ** The pipeline over a store of objects

    To speak about mutation the input mapping and the result are objects in
    a store.  A tracked object is a plain mapping held at a location; its
    properties hold either a reference to a tracked object or a value of the
    pure model ([Plain]: primitives, and objects whose identity is not
    followed, such as the schema's own setting values and what the
    functions of the host return).  The transformers read their argument
    and return numbers, dates, the string or the function they were given,
    a schema-owned default or what a function of the host returned, so a
    leaf is run on a snapshot of its argument; [_parseNested] allocates
    [resultingObject] and writes to it with [Object.assign]. *)

Definition loc : Type := positive.

Inductive sval : Type :=
| Plain (v : value)
| Ref (l : loc).

Abbreviation store := (gmap loc (list (string * sval))).

(** The mapping read from the store, following references to the given
    depth. *)
Fixpoint snapshotTo (depth : nat) (σ : store) (x : sval) : value :=
  match x with
  | Plain v => v
  | Ref l =>
      match depth with
      | O => VObject []
      | S d =>
          match σ !! l with
          | Some props =>
              VObject (map (fun kv => (kv.1, snapshotTo d σ kv.2)) props)
          | None => VUndefined
          end
      end
  end.

(** Every object of a store without reference cycles is within depth
    [size σ] of any of its values. *)
Definition snapshot (σ : store) (x : sval) : value :=
  snapshotTo (size σ) σ x.

Definition isUndefinedS (x : sval) : bool :=
  match x with
  | Plain v => is_undefined v
  | Ref _ => false
  end.

(** [typeof obj === 'object' ? obj[prop] : undefined] *)
Definition subValueS (h : Host) (σ : store) (obj : sval) (prop : string)
  : result sval :=
  match obj with
  | Ref l =>
      Ok (match assoc prop (default [] (σ !! l)) with
          | Some x => x
          | None => Plain (hostInherited h (snapshot σ obj) prop)
          end)
  | Plain v =>
      match subValue h v prop with
      | Ok sub => Ok (Plain sub)
      | Throw e => Throw e
      end
  end.

(** A leaf: default substitution and [_run] on what the argument holds. *)
Definition parseLeafS (h : Host) (this : Schema) (x : sval) (σ : store)
  : result sval * store :=
  (match parseLeaf h this (snapshot σ x) with
   | Ok v => Ok (Plain v)
   | Throw e => Throw e
   end, σ).

(** One iteration of [this.ownPaths.forEach], with [resultingObject] at
    location [r]; the state is the store and the [errors] array. *)
Definition childStepS (h : Host)
    (parseChild : Schema -> sval -> store -> result sval * store)
    (this : Schema) (obj : sval) (r : loc)
    (acc : store * list error) (pathName : string) : store * list error :=
  match schemaAtPath this pathName with
  | None =>
      (acc.1,
       collect acc.2 (TypeError "Cannot read property 'parse' of undefined"))
  | Some schema =>
      match subValueS h acc.1 obj (name schema) with
      | Throw e => (acc.1, collect acc.2 e)
      | Ok sub =>
          match parseChild schema sub acc.1 with
          | (Ok val, σ1) =>
              if isUndefinedS val then (σ1, acc.2)
              else (<[r := objectAssign (name schema) val
                             (default [] (σ1 !! r))]> σ1,
                    acc.2)
          | (Throw e, σ1) => (σ1, collect acc.2 e)
          end
      end
  end.

(** [_parseNested(obj)]: the structural pre-pass reads the input; then
    [resultingObject = {}] is allocated at a fresh location. *)
Definition _parseNestedS (h : Host)
    (parseChild : Schema -> sval -> store -> result sval * store)
    (this : Schema) (obj : sval) (σ : store) : result sval * store :=
  match structureValidation this (snapshot σ obj) with
  | Throw e => (Throw e, σ)
  | Ok _ =>
      let r := fresh (dom σ) in
      let '(σ', errors) :=
        fold_left (childStepS h parseChild this obj r) (ownPaths this)
                  (<[r := []]> σ, []) in
      match errors with
      | _ :: _ =>
          (Throw (newValidationError "Data is not valid" (Some errors)
                    VUndefined None), σ')
      | [] =>
          (Ok (match σ' !! r with
               | Some (_ :: _) => Ref r
               | _ => Plain VUndefined
               end), σ')
      end
  end.

Definition parserOfS
    (table : list (Schema * (sval -> store -> result sval * store)))
    (c : Schema) : sval -> store -> result sval * store :=
  match List.find (fun e => String.eqb (name e.1) (name c)) table with
  | Some e => e.2
  | None =>
      fun _ σ =>
        (Throw (TypeError "Cannot read property 'parse' of undefined"), σ)
  end.

(** [parse(v)] over the store. *)
Fixpoint parseS (h : Host) (this : Schema) (x : sval) (σ : store)
  : result sval * store :=
  match this with
  | mkSchema _ _ _ _ (Some cs) =>
      _parseNestedS h (parserOfS (map (fun c => (c, parseS h c)) cs)) this x σ
  | mkSchema _ _ _ _ None => parseLeafS h this x σ
  end.


(** What a leaf throws: never a structural error, and never a composite with
    child errors. *)
Definition leafError (e : error) : Prop :=
  ~ isStructural e
  /\ forall m errs val fld, e = ValidationError m errs val fld -> errs = [].

(** What the runtime itself throws, and what a transformer throws on top
    of it through [throwError]. *)
Definition isTypeError (e : error) : Prop := exists m, e = TypeError m.

Definition leafThrown (this : Schema) (e : error) : Prop :=
  isTypeError e \/ exists m val, e = ValidationError m [] val (Some this).

(** What holds of a parse over the store: every object present before the
    call is present and equal after it, and a reference it returns is to an
    object allocated during the call. *)
Definition framed
    (run : sval -> store -> result sval * store) : Prop :=
  forall x σ out σ',
    run x σ = (out, σ') ->
    σ ⊆ σ'
    /\ forall r, out = Ok (Ref r) -> σ !! r = None /\ is_Some (σ' !! r).

(** The value [x] reads as [v] in [σ]: at every depth from [d] on and in
    every store that extends [σ]. *)
Definition stableAt (d : nat) (σ : store) (x : sval) (v : value) : Prop :=
  forall d' σ', d <= d' -> σ ⊆ σ' -> snapshotTo d' σ' x = v.

(** The store value [y] stands for the pure value [r], through objects at
    locations of [L] only. *)
Inductive denotes (σ : store) (L : gset loc) : sval -> value -> Prop :=
| denotes_plain v : denotes σ L (Plain v) v
| denotes_ref l props kvs :
    l ∈ L ->
    σ !! l = Some props ->
    Forall2 (fun p q => p.1 = q.1 /\ denotes σ L p.2 q.2) props kvs ->
    denotes σ L (Ref l) (VObject kvs).

(** A run of a child over the store agrees with the pure [parse] of that
    child. *)
Definition refines (h : Host) (c : Schema)
    (run : sval -> store -> result sval * store) : Prop :=
  forall d x σ v out σ',
    stableAt d σ x v -> d <= size σ ->
    run x σ = (out, σ') ->
    match out with
    | Ok y =>
        exists r, parse h c v = Ok r /\ denotes σ' (dom σ' ∖ dom σ) y r
    | Throw e => parse h c v = Throw e
    end.

(** The state of the walk over the store, with [resultingObject] at [r],
    against the state of the pure walk. *)
Definition related (σ : store) (r : loc) (accS : store * list error)
    (accP : list (string * value) * list error) : Prop :=
  accS.2 = accP.2
  /\ σ ⊆ accS.1
  /\ exists props,
       accS.1 !! r = Some props
       /\ Forall2 (fun p q =>
                     p.1 = q.1
                     /\ denotes accS.1 (dom accS.1 ∖ dom σ ∖ {[r]}) p.2 q.2)
                  props accP.1.

(** ** Sample schemas *)

(** [{address: {line1: String}}] *)
Definition addressSchema : Schema :=
  mkSchema "" "" "Schema" []
    (Some [mkSchema "address" "" "Schema" []
             (Some [mkSchema "line1" "address" "String" [] None])]).

(** [{type: String, default: 'United States'}] under the name [country] *)
Definition countryLeaf : Schema :=
  mkSchema "country" "" "String" [("default", VString "United States")] None.

(** [{type: String, required: true}] under the name [name] *)
Definition nameLeaf : Schema :=
  mkSchema "name" "" "String" [("required", VBool true)] None.

(** [{birthday: 'Birthday'}]: a leaf whose type has no transformer *)
Definition birthdaySchema : Schema :=
  mkSchema "" "" "Schema" []
    (Some [mkSchema "birthday" "" "Birthday" [] None]).

(** [{age: Number}] *)
Definition ageSchema : Schema :=
  mkSchema "" "" "Schema" [] (Some [mkSchema "age" "" "Number" [] None]).

(** [{type: String, required: true, default: 'x'}] *)
Definition contradictoryLeaf : Schema :=
  mkSchema "" "" "String"
    [("required", VBool true); ("default", VString "x")] None.

(** [{name: String, age: Number}] *)
Definition contactSchema : Schema :=
  mkSchema "" "" "Schema" []
    (Some [mkSchema "name" "" "String" [] None;
           mkSchema "age" "" "Number" [] None]).

(** Induction on schema trees, with the hypothesis for every child. *)
Fixpoint Schema_tree_ind (P : Schema -> Prop)
    (Hleaf : forall nm pp ty st, P (mkSchema nm pp ty st None))
    (Hbranch : forall nm pp ty st cs,
        Forall P cs -> P (mkSchema nm pp ty st (Some cs)))
    (s : Schema) : P s :=
  match s with
  | mkSchema nm pp ty st None => Hleaf nm pp ty st
  | mkSchema nm pp ty st (Some cs) =>
      Hbranch nm pp ty st cs
        ((fix all (l : list Schema) : Forall P l :=
            match l with
            | [] => @List.Forall_nil Schema P
            | c :: rest =>
                @List.Forall_cons Schema P c rest
                  (Schema_tree_ind P Hleaf Hbranch c) (all rest)
            end) cs)
  end.

(** [{type: Number, default: 5}] and [{type: Number, required: true}] *)
Definition numberWithDefault : Schema :=
  mkSchema "" "" "Number" [("default", VNumber (Fin 5))] None.

Definition requiredNumber : Schema :=
  mkSchema "" "" "Number" [("required", VBool true)] None.

(** A store holding [{name: 'Tin', age: '36'}] at location 1. *)
Definition contactStore : store :=
  {[ 1%positive := [("name", Plain (VString "Tin"));
                    ("age", Plain (VString "36"))] ]}.

(** [{type: Number, default: 0}] *)
Definition zeroDefaultLeaf : Schema :=
  mkSchema "" "" "Number" [("default", VNumber (Fin 0))] None.

(** ** Further notions and samples *)

(** A [ValidationError] is tagged with [this] and has no child errors.  *)
Definition taggedBy (this : Schema) (e : error) : Prop :=
  forall m errs val fld,
    e = ValidationError m errs val fld -> fld = Some this /\ errs = [].


(** [{type: Number, required: [false, 'Age is required']}] under the name
    [age] *)
Definition softRequiredLeaf : Schema :=
  mkSchema "age" "" "Number"
    [("required", VArray [VBool false; VString "Age is required"])] None.

(** The leaves [Number], [Date], [Function] and ['Birthday'] under the names
    [age], [birthday], [callback] and [birthday] *)
Definition ageLeaf : Schema := mkSchema "age" "" "Number" [] None.
Definition dateLeaf : Schema := mkSchema "birthday" "" "Date" [] None.
Definition callbackLeaf : Schema := mkSchema "callback" "" "Function" [] None.
Definition birthdayLeaf : Schema := mkSchema "birthday" "" "Birthday" [] None.

(** Induction on values, with the hypothesis for every property value and
    every array element. *)
Fixpoint value_tree_ind (P : value -> Prop)
    (Hundefined : P VUndefined) (Hnull : P VNull)
    (Hbool : forall b, P (VBool b)) (Hnumber : forall n, P (VNumber n))
    (Hstring : forall s, P (VString s))
    (Hobject : forall kvs, Forall (fun kv => P kv.2) kvs -> P (VObject kvs))
    (Harray : forall items, Forall P items -> P (VArray items))
    (Hfunction : forall f, P (VFunction f)) (Hdate : forall t, P (VDate t))
    (Hregexp : forall re, P (VRegExp re))
    (v : value) : P v :=
  let rec := value_tree_ind P Hundefined Hnull Hbool Hnumber Hstring Hobject
               Harray Hfunction Hdate Hregexp in
  match v with
  | VUndefined => Hundefined
  | VNull => Hnull
  | VBool b => Hbool b
  | VNumber n => Hnumber n
  | VString s => Hstring s
  | VObject kvs =>
      Hobject kvs
        ((fix all (l : list (string * value)) : Forall (fun kv => P kv.2) l :=
            match l with
            | [] => @List.Forall_nil _ _
            | kv :: rest =>
                @List.Forall_cons _ (fun kv => P kv.2) kv rest (rec kv.2)
                                  (all rest)
            end) kvs)
  | VArray items =>
      Harray items
        ((fix all (l : list value) : Forall P l :=
            match l with
            | [] => @List.Forall_nil _ _
            | x :: rest => @List.Forall_cons _ P x rest (rec x) (all rest)
            end) items)
  | VFunction f => Hfunction f
  | VDate t => Hdate t
  | VRegExp re => Hregexp re
  end.

(** The loop of [_parseSchema] over the keys of a mapping, and over the
    indices of an array from [i] on, with the constructor as a parameter. *)
Fixpoint buildChildren (build : value -> string -> result Schema)
    (kvs : list (string * value)) : result (list Schema) :=
  match kvs with
  | [] => Ok []
  | (prop, d) :: rest =>
      let* c := build d prop in
      let* cs := buildChildren build rest in
      Ok (c :: cs)
  end.

Fixpoint buildItems (build : value -> string -> result Schema)
    (i : nat) (items : list value) : result (list Schema) :=
  match items with
  | [] => Ok []
  | d :: rest =>
      let* c := build d (indexKey i) in
      let* cs := buildItems build (S i) rest in
      Ok (c :: cs)
  end.

(** Every child records the full path of the node that holds it. *)
Fixpoint wellParented (s : Schema) : bool :=
  match s with
  | mkSchema nm pp _ _ (Some cs) =>
      forallb (fun c => String.eqb (parentPath c) (joinPath pp nm)
                        && wellParented c) cs
  | mkSchema _ _ _ _ None => true
  end.

(** No node keeps a [type] among its settings. *)
Fixpoint noTypeSetting (s : Schema) : bool :=
  match s with
  | mkSchema _ _ _ st cs =>
      negb (bool_decide (is_Some (assoc "type" st)))
      && match cs with
         | Some l => forallb noTypeSetting l
         | None => true
         end
  end.

(** The leaves under a node, in declaration order. *)
Fixpoint leaves (s : Schema) : list Schema :=
  match s with
  | mkSchema _ _ _ _ (Some cs) => flat_map leaves cs
  | mkSchema _ _ _ _ None => [s]
  end.

(** No branch below the node has an empty name (no key of a nested mapping
    of the definition is the empty string). *)
Fixpoint branchesNamed (s : Schema) : bool :=
  match s with
  | mkSchema _ _ _ _ (Some cs) =>
      forallb (fun c => (negb (String.eqb (name c) "")
                         || negb (bool_decide (is_Some (children c))))
                        && branchesNamed c) cs
  | mkSchema _ _ _ _ None => true
  end.

(** What the constructor establishes for the node it returns. *)
Definition builtRight (nm pp : string) (s : Schema) : Prop :=
  name s = nm /\ parentPath s = pp
  /\ wellParented s = true /\ noTypeSetting s = true.

(** [{title: {type: String, required: [true, 'A post requires a title']},
      body: {type: String, required: true},
      published: {type: Date, default: Date.now}}] ([test/utils.test.js]) *)
Definition postDefinition : value :=
  VObject
    [("title", VObject [("type", VFunction "String");
                        ("required",
                         VArray [VBool true;
                                 VString "A post requires a title"])]);
     ("body", VObject [("type", VFunction "String");
                       ("required", VBool true)]);
     ("published", VObject [("type", VFunction "Date");
                            ("default", VFunction "now")])].

Definition postSchema : Schema :=
  mkSchema "" "" "Schema" []
    (Some [mkSchema "title" "" "String"
             [("required",
               VArray [VBool true; VString "A post requires a title"])] None;
           mkSchema "body" "" "String" [("required", VBool true)] None;
           mkSchema "published" "" "Date" [("default", VFunction "now")]
             None]).

(** The branch [address] of [{address: {line1: String}}] *)
Definition addressBranch : Schema :=
  mkSchema "address" "" "Schema" []
    (Some [mkSchema "line1" "address" "String" [] None]).

(** [{'a.b': String}]: a key with a dot *)
Definition dottedSchema : Schema :=
  mkSchema "" "" "Schema" [] (Some [mkSchema "a.b" "" "String" [] None]).

(** [{name: {type: String, required: true}, age: Number,
      birthday: 'Birthday'}] *)
Definition profileSchema : Schema :=
  mkSchema "" "" "Schema" []
    (Some [mkSchema "name" "" "String" [("required", VBool true)] None;
           mkSchema "age" "" "Number" [] None;
           mkSchema "birthday" "" "Birthday" [] None]).

(** The errors one own path adds to the [errors] array. *)
Definition thrownAt (h : Host)
    (parseChild : Schema -> value -> result value)
    (this : Schema) (obj : value) (pathName : string) : list error :=
  match parseAtPath h parseChild this obj pathName with
  | Ok _ => []
  | Throw e => collect [] e
  end.

(** [err.errors], empty for an error that is not a [ValidationError]. *)
Definition childErrors (e : error) : list error :=
  match e with
  | ValidationError _ errs _ _ => errs
  | _ => []
  end.

(** [{a: String, 'a.b': Number}]: the own path [a.b] resolves to the child
    [a] *)
Definition shadowedSchema : Schema :=
  mkSchema "" "" "Schema" []
    (Some [mkSchema "a" "" "String" [] None;
           mkSchema "a.b" "" "Number" [] None]).

(** [{type: String}] under the name [name] *)
Definition plainNameLeaf : Schema := mkSchema "name" "" "String" [] None.

(** * Properties *)

(** Settles a decidable closed proposition by evaluation. *)
Ltac by_decide :=
  match goal with
  | |- ?P => apply (bool_decide_unpack P); vm_compute; exact I
  end.

(** ** Unfolding [parse] *)

Lemma parse_leaf h this v :
  children this = None -> parse h this v = parseLeaf h this v.
Proof. destruct this as [nm pp ty st [cs|]]; simpl; [discriminate | done]. Qed.

Lemma find_name_map {B : Type} (f : Schema -> B) (cs : list Schema) seg :
  List.find (fun e : Schema * B => String.eqb (name e.1) seg)
            (map (fun c => (c, f c)) cs)
  = option_map (fun c => (c, f c))
      (List.find (fun c => String.eqb (name c) seg) cs).
Proof.
  induction cs as [|c cs IH]; simpl; [done|].
  destruct (String.eqb (name c) seg); simpl; [done | apply IH].
Qed.

Lemma schemaAtPath_name this p c :
  schemaAtPath this p = Some c -> name c = firstSegment p.
Proof.
  unfold schemaAtPath. intros H. apply find_some in H as [_ H].
  by apply String.eqb_eq in H.
Qed.

Lemma schemaAtPath_child this p c :
  schemaAtPath this p = Some c ->
  exists cs, children this = Some cs /\ c ∈ cs.
Proof.
  unfold schemaAtPath. intros H. apply find_some in H as [H _].
  destruct (children this) as [cs|]; simpl in H; [|done].
  exists cs. split; [done|]. by apply list_elem_of_In.
Qed.

(** Two child parsers that agree on the children the paths resolve to give
    the same walk. *)
Lemma parseAtPath_ext h f g this obj p :
  (forall c, schemaAtPath this p = Some c -> forall v, f c v = g c v) ->
  parseAtPath h f this obj p = parseAtPath h g this obj p.
Proof.
  intros H. unfold parseAtPath.
  destruct (schemaAtPath this p) as [c|]; [|done].
  destruct (subValue h obj (name c)) as [sub|e]; simpl; [|done].
  by rewrite (H c eq_refl sub).
Qed.

Lemma fold_childStep_ext h f g this obj paths0 acc :
  (forall p, p ∈ paths0 ->
             parseAtPath h f this obj p = parseAtPath h g this obj p) ->
  fold_left (childStep h f this obj) paths0 acc
  = fold_left (childStep h g this obj) paths0 acc.
Proof.
  revert acc. induction paths0 as [|p ps IH]; intros acc H; simpl; [done|].
  unfold childStep at 2 4. rewrite (H p) by left.
  apply IH. intros q Hq. apply H. by right.
Qed.

Lemma parseFields_ext h f g this obj :
  (forall p c, schemaAtPath this p = Some c -> forall v, f c v = g c v) ->
  parseFields h f this obj = parseFields h g this obj.
Proof.
  intros H. unfold parseFields.
  rewrite (fold_childStep_ext h f g); [done|].
  intros p _. apply parseAtPath_ext. eauto.
Qed.

(** On a branch, [parse] is [_parseNested] applied to [parse] itself. *)
Lemma parse_branch h this v cs :
  children this = Some cs ->
  parse h this v = _parseNested h (parse h) this v.
Proof.
  destruct this as [nm pp ty st [cs'|]]; simpl; [intros _ | discriminate].
  unfold _parseNested.
  destruct (structureValidation (mkSchema nm pp ty st (Some cs')) v);
    simpl; [|done].
  apply parseFields_ext. intros p c Hc sub.
  unfold parserOf. rewrite find_name_map.
  pose proof (schemaAtPath_name _ _ _ Hc) as Hn.
  unfold schemaAtPath in Hc. simpl in Hc. rewrite Hn, Hc. done.
Qed.

(** The constructor makes a branch exactly where [isNested] says so. *)
Lemma newSchema_isNested kvs nm pp s :
  newSchema (VObject kvs) nm pp = Ok s ->
  isNested (VObject kvs) = Ok (bool_decide (is_Some (children s))).
Proof.
  simpl. unfold isNested. simpl.
  destruct (falsy (default VUndefined (assoc "type" kvs))).
  - match goal with
    | |- bind ?r _ = _ -> _ => destruct r; simpl; [|discriminate]
    end.
    by intros [= <-].
  - match goal with
    | |- bind ?r _ = _ -> _ => destruct r; simpl; [|discriminate]
    end.
    by intros [= <-].
Qed.

(** ** Structural validation *)

Lemma structureValidation_rejects this obj :
  truthy obj = true ->
  propertiesRestricted obj (ownPaths this) = false ->
  structureValidation this obj
  = Throw (ValidationError "Invalid object schema" (unknownFields this obj)
             obj None).
Proof.
  intros Ht Hp. unfold structureValidation, falsy. by rewrite Ht, Hp.
Qed.

Lemma propertiesRestricted_unknown kvs allowed k :
  k ∈ map fst kvs -> k ∉ allowed ->
  propertiesRestricted (VObject kvs) allowed = false.
Proof.
  intros Hk Hn. unfold propertiesRestricted. simpl.
  apply not_true_is_false. intros Hall.
  rewrite forallb_forall in Hall.
  specialize (Hall k (proj1 (list_elem_of_In _ _) Hk)).
  by apply bool_decide_eq_true in Hall.
Qed.

(** C1 (amended): a branch given a mapping with an own key outside its own
    paths throws the composite "Invalid object schema"; the child errors are
    one "Unknown property <path>" for each flattened dotted key that is not
    in [paths], in the order of the flattening; the outcome is the same for
    every child parser, so no transformer is consulted. *)
Theorem unknown_keys_rejected h this cs kvs :
  children this = Some cs ->
  (exists k, k ∈ map fst kvs /\ k ∉ ownPaths this) ->
  let outcome :=
    Throw (ValidationError "Invalid object schema"
             (map (fun f => Error ("Unknown property " +:+ f))
                  (filter (fun f => negb (hasField this f))
                          (obj2dot (VObject kvs))))
             (VObject kvs) None) in
  parse h this (VObject kvs) = outcome
  /\ forall parseChild, _parseNested h parseChild this (VObject kvs) = outcome.
Proof.
  intros Hcs (k & Hk & Hn) outcome.
  assert (Hall : forall f, _parseNested h f this (VObject kvs) = outcome).
  { intros f. unfold _parseNested.
    rewrite structureValidation_rejects; [done | done |].
    by eapply propertiesRestricted_unknown. }
  split; [|exact Hall].
  rewrite (parse_branch _ _ _ _ Hcs). apply Hall.
Qed.

Lemma unknown_keys_rejected_witness :
  parse exampleHost addressSchema
    (VObject [("name", VString "a");
              ("address", VObject [("zip", VNumber (Fin 1))])])
  = Throw (ValidationError "Invalid object schema"
             [Error "Unknown property name";
              Error "Unknown property address.zip"]
             (VObject [("name", VString "a");
                       ("address", VObject [("zip", VNumber (Fin 1))])])
             None).
Proof.
  refine (proj1 (unknown_keys_rejected exampleHost addressSchema _
                   [("name", VString "a");
                    ("address", VObject [("zip", VNumber (Fin 1))])]
                   eq_refl _)).
  exists "name". split; by_decide.
Defined.

(** The schema [{address: {line1: String}}] is [addressSchema]; the input
    [{address: {zip: 1}}] flattens to the key [address.zip], which is not
    among the schema's paths, yet [parse] throws "Data is not valid". *)
Lemma nested_unknown_key_is_data_error :
  newSchema (VObject [("address", VObject [("line1", VFunction "String")])])
            "" "" = Ok addressSchema
  /\ ("address.zip"
      ∈ obj2dot (VObject [("address", VObject [("zip", VNumber (Fin 1))])]))
  /\ ("address.zip" ∉ paths addressSchema)
  /\ parse exampleHost addressSchema
       (VObject [("address", VObject [("zip", VNumber (Fin 1))])])
     = Throw (ValidationError "Data is not valid"
                [Error "Unknown property zip"] VUndefined None).
Proof.
  split; [reflexivity|].
  split; [by_decide|].
  split; [by_decide|].
  reflexivity.
Qed.

(** C10: for every falsy input (null, undefined, 0, NaN, false, the empty
    string) the structural pre-pass returns without looking at any key, and
    the branch goes on to parse its fields. *)
Theorem structureValidation_falsy h this cs obj :
  children this = Some cs ->
  falsy obj = true ->
  structureValidation this obj = Ok tt
  /\ parse h this obj = parseFields h (parse h) this obj.
Proof.
  intros Hcs Hf.
  assert (Hs : structureValidation this obj = Ok tt)
    by (unfold structureValidation; by rewrite Hf).
  split; [done|].
  rewrite (parse_branch _ _ _ _ Hcs). unfold _parseNested. by rewrite Hs.
Qed.

Lemma structureValidation_falsy_witness :
  structureValidation addressSchema (VNumber (Fin 0)) = Ok tt
  /\ parse exampleHost addressSchema (VNumber (Fin 0))
     = parseFields exampleHost (parse exampleHost) addressSchema (VNumber (Fin 0)).
Proof.
  exact (structureValidation_falsy exampleHost addressSchema _
           (VNumber (Fin 0)) eq_refl eq_refl).
Defined.

(** ** Leaves: default and required *)

(** On a leaf whose [default] setting is truthy, a falsy input is replaced by
    the default (the result of calling it when it is a function, the setting
    itself otherwise), and it is the replaced value that goes through
    [_run], hence through the required check and the transformer. *)
Lemma default_substituted h this v :
  children this = None ->
  truthy (setting this "default") = true ->
  falsy v = true ->
  parse h this v = _run h this (type this) (defaultValue h this v).
Proof.
  intros Hleaf Hd Hv. rewrite (parse_leaf _ _ _ Hleaf).
  unfold parseLeaf, withDefault, defaultValue. by rewrite Hd, Hv.
Qed.

Example default_substituted_country :
  parse exampleHost countryLeaf VUndefined = Ok (VString "United States").
Proof. reflexivity. Qed.

(** C4: what the code does with a falsy default.  The guard of the
    substitution is [this.settings.default && !v], so for the leaf
    [{type: Number, default: 0}] and the input [undefined] the default is
    not substituted: the transformer is not reached and the result is
    [undefined], while [_run] on the default [0] gives [0]. *)
Theorem falsy_default_not_substituted :
  newSchema (VObject [("type", VFunction "Number");
                      ("default", VNumber (Fin 0))]) "" ""
  = Ok zeroDefaultLeaf
  /\ withDefault exampleHost zeroDefaultLeaf VUndefined = VUndefined
  /\ parse exampleHost zeroDefaultLeaf VUndefined = Ok VUndefined
  /\ _run exampleHost zeroDefaultLeaf "Number" (VNumber (Fin 0))
     = Ok (VNumber (Fin 0)).
Proof. repeat split. Qed.

(** C3: what the code does for a required leaf.  When the type is known,
    [required] is [true] (or a pair [[r, message]] with [r] truthy) and the
    value left after default substitution is falsy, [parse] throws an error
    tagged with the leaf whose message is "Field <fullPath> is required" (or
    the pair's message): the word is "Field", not "Property". *)
Theorem required_missing h this v required msg :
  children this = None ->
  is_Some (Transformers.lookup (type this)) ->
  falsy (withDefault h this v) = true ->
  truthy (setting this "required") = true ->
  castThrowable (setting this "required")
    (VString ("Field " +:+ fullPath this +:+ " is required"))
  = (required, msg) ->
  truthy required = true ->
  parse h this v
  = Throw (ValidationError (messageOf h msg) [] (withDefault h this v)
             (Some this)).
Proof.
  intros Hleaf [t Ht] Hv Hreq Hc Hr. rewrite (parse_leaf _ _ _ Hleaf).
  unfold parseLeaf, _run. rewrite Ht.
  unfold falsy in *. rewrite Hreq. rewrite andb_false_r.
  rewrite Hv. simpl. rewrite Hc, Hr. reflexivity.
Qed.

Lemma required_missing_witness :
  parse exampleHost nameLeaf VUndefined
  = Throw (ValidationError "Field name is required" [] VUndefined
             (Some nameLeaf)).
Proof.
  exact (required_missing exampleHost nameLeaf VUndefined _ _ eq_refl
           (ex_intro _ _ eq_refl) eq_refl eq_refl eq_refl eq_refl).
Defined.

(** ** Construction *)

(** C6: what the constructor does with a leaf that declares both
    [required: true] and a [default].  The definition
    [{type: String, required: true, default: 'x'}] is built without an
    error, and parsing [undefined] with the resulting leaf yields the
    default. *)
Theorem required_with_default_is_built :
  newSchema (VObject [("type", VFunction "String");
                      ("required", VBool true);
                      ("default", VString "x")]) "" ""
  = Ok contradictoryLeaf
  /\ parse exampleHost contradictoryLeaf VUndefined = Ok (VString "x").
Proof. split; reflexivity. Qed.

(** ** Field attribution *)

(** C8: what the code attaches to the errors it surfaces.  For the schema
    [{birthday: 'Birthday'}] and the input [{}] the composite carries the
    plain error "Don't know how to resolve Birthday", and for [{age: Number}]
    and [{age: 'thirty six'}] the plain error "Invalid number": neither has a [field],
    and neither has the composite itself. *)
Theorem plain_errors_have_no_field :
  newSchema (VObject [("birthday", VString "Birthday")]) "" ""
  = Ok birthdaySchema
  /\ parse exampleHost birthdaySchema (VObject [])
     = Throw (ValidationError "Data is not valid"
                [Error "Don't know how to resolve Birthday"] VUndefined None)
  /\ field (Error "Don't know how to resolve Birthday") = None
  /\ newSchema (VObject [("age", VFunction "Number")]) "" "" = Ok ageSchema
  /\ parse exampleHost ageSchema (VObject [("age", VString "thirty six")])
     = Throw (ValidationError "Data is not valid"
                [Error "Invalid number"] VUndefined None)
  /\ field (Error "Invalid number") = None.
Proof. repeat split. Qed.

(** ** Errors collected by a branch *)

Lemma leafError_validation m v fld :
  leafError (ValidationError m [] v fld).
Proof.
  split; [intros [f Hf]; discriminate|]. intros ???? [= _ <- _ _]. done.
Qed.

Lemma leafError_type m : leafError (TypeError m).
Proof. split; [intros [f Hf]; discriminate|]. intros ???? [=]. Qed.

Lemma leafError_invalid m :
  (forall f, m <> "Unknown property " +:+ f) -> leafError (Error m).
Proof.
  intros Hm. split; [intros [f [= Hf]]; by apply (Hm f)|]. intros ???? [=].
Qed.

Create HintDb leaf.
#[local] Hint Resolve leafError_validation leafError_type : leaf.

Ltac leaf_throw :=
  repeat match goal with
    | H : Throw _ = Throw _ |- _ => injection H as <-
    | H : Ok _ = Throw _ |- _ => discriminate H
    | H : bind ?r _ = Throw _ |- _ =>
        let E := fresh "E" in destruct r eqn:E; simpl in H
    | H : throwError _ _ _ _ _ = Throw _ |- _ =>
        unfold throwError, newValidationError in H; simpl in H
    | H : context [let '(_, _) := ?p in _] |- _ => destruct p
    | H : context [match ?x with _ => _ end] |- _ =>
        let E := fresh "E" in destruct x eqn:E; simpl in H
    end;
  eauto with leaf.

Lemma toPrimitive_throws h b v e :
  toPrimitive h b v = Throw e -> isTypeError e.
Proof.
  unfold toPrimitive. destruct (isPrimitive v); [discriminate|].
  destruct v, b; try discriminate;
    destruct (hostToPrimitive h _ _); try discriminate;
    intros [= <-]; by eexists.
Qed.

Lemma toNumber_throws h v e : toNumber h v = Throw e -> isTypeError e.
Proof.
  unfold toNumber. destruct (toPrimitive h false v) eqn:E; simpl;
    [discriminate|].
  intros [= <-]. by eapply toPrimitive_throws.
Qed.

Lemma toStringOf_throws h v e : toStringOf h v = Throw e -> isTypeError e.
Proof.
  unfold toStringOf. destruct (toPrimitive h true v) eqn:E; simpl;
    [discriminate|].
  intros [= <-]. by eapply toPrimitive_throws.
Qed.

Lemma lessThan_throws h a b e : lessThan h a b = Throw e -> isTypeError e.
Proof.
  unfold lessThan.
  destruct (toPrimitive h false a) eqn:Ea; simpl;
    [|intros [= <-]; by eapply toPrimitive_throws].
  destruct (toPrimitive h false b) eqn:Eb; simpl; [discriminate|].
  intros [= <-]. by eapply toPrimitive_throws.
Qed.

Lemma greaterThan_throws h a b e :
  greaterThan h a b = Throw e -> isTypeError e.
Proof.
  unfold greaterThan.
  destruct (toPrimitive h false a) eqn:Ea; simpl;
    [|intros [= <-]; by eapply toPrimitive_throws].
  destruct (toPrimitive h false b) eqn:Eb; simpl; [discriminate|].
  intros [= <-]. by eapply toPrimitive_throws.
Qed.

Lemma lengthOf_throws h v e : lengthOf h v = Throw e -> isTypeError e.
Proof. destruct v; simpl; try discriminate; intros [= <-]; by eexists. Qed.

Lemma callMethod_throws h o m args e :
  callMethod h o m args = Throw e -> isTypeError e.
Proof.
  unfold callMethod. destruct (getProp h o m); try discriminate;
    intros [= <-]; by eexists.
Qed.

Lemma callHasOwnProperty_throws h v k e :
  callHasOwnProperty h v k = Throw e -> isTypeError e.
Proof.
  unfold callHasOwnProperty.
  destruct (hasOwnProperty v "hasOwnProperty"); [|discriminate].
  destruct (callMethod h v _ _) eqn:E; simpl; [discriminate|].
  intros [= <-]. by eapply callMethod_throws.
Qed.

Lemma callTest_throws h regex v e :
  callTest h regex v = Throw e -> isTypeError e.
Proof.
  unfold callTest.
  assert (Hm : (let* r := callMethod h regex "test" [v] in Ok (truthy r))
               = Throw e -> isTypeError e).
  { destruct (callMethod h regex _ _) eqn:E; simpl; [discriminate|].
    intros [= <-]. by eapply callMethod_throws. }
  destruct regex; try exact Hm; try (intros [= <-]; by eexists).
  destruct (toStringOf h v) eqn:E; simpl; [discriminate|].
  intros [= <-]. by eapply toStringOf_throws.
Qed.

Lemma throwError_thrown {A : Type} h this msg v e :
  @throwError A h this msg None v = Throw e -> leafThrown this e.
Proof. intros [= <-]. right. by eexists _, _. Qed.

Lemma stringOf_thrown h this v e :
  Transformers.stringOf h this v = Throw e -> leafThrown this e.
Proof.
  unfold Transformers.stringOf.
  assert (Hrest : forall r : result bool,
            (forall e', r = Throw e' -> isTypeError e') ->
            (let* convertible := r in
             if negb convertible
             then throwError h this (VString "Invalid string") None v
             else callMethod h v "toString" []) = Throw e ->
            leafThrown this e).
  { intros r Hr. destruct r as [[]|e']; simpl.
    - intros H. left. by eapply callMethod_throws.
    - apply throwError_thrown.
    - intros [= <-]. left. by apply Hr. }
  destruct v; try discriminate; apply Hrest; simpl; try discriminate;
    try (intros e'; apply callHasOwnProperty_throws).
  intros e' [= <-]. by eexists.
Qed.

(** A guarded check of [String.parse]: a condition that may throw, then
    [throwError]. *)
Lemma check_thrown h this (cond : result bool) (flip : bool) msg v e :
  (forall e', cond = Throw e' -> isTypeError e') ->
  (let* c := cond in
   if xorb flip c then @throwError unit h this msg None v else Ok tt)
  = Throw e ->
  leafThrown this e.
Proof.
  intros Hc. destruct cond as [c|e']; simpl.
  - destruct (xorb flip c); [apply throwError_thrown | discriminate].
  - intros [= <-]. left. by apply Hc.
Qed.

Lemma String_parse_thrown h this v e :
  Transformers.String_parse h this v = Throw e -> leafThrown this e.
Proof.
  unfold Transformers.String_parse. intros H.
  destruct (Transformers.stringOf h this v) as [x|e'] eqn:Hs; simpl in H;
    [|injection H as <-; by eapply stringOf_thrown].
  match type of H with
  | bind ?r _ = _ => destruct r as [[]|e'] eqn:Hmin; simpl in H
  end.
  2:{ injection H as <-.
      destruct (truthy (setting this "minlength")); [|discriminate].
      destruct (castThrowable (setting this "minlength") _)
        as [minlength error].
      destruct (lengthOf h x) as [len|e''] eqn:Hl; simpl in Hmin;
        [|injection Hmin as <-; left; by eapply lengthOf_throws].
      apply (check_thrown h this (lessThan h len minlength) false error x);
        [apply lessThan_throws | exact Hmin]. }
  match type of H with
  | bind ?r _ = _ => destruct r as [[]|e'] eqn:Hmax; simpl in H
  end.
  2:{ injection H as <-.
      clear Hmin.
      destruct (truthy (setting this "maxlength")); [|discriminate].
      destruct (castThrowable (setting this "maxlength") _)
        as [maxlength error].
      destruct (lengthOf h x) as [len|e''] eqn:Hl; simpl in Hmax;
        [|injection Hmax as <-; left; by eapply lengthOf_throws].
      apply (check_thrown h this (greaterThan h len maxlength) false error x);
        [apply greaterThan_throws | exact Hmax]. }
  match type of H with
  | bind ?r _ = _ => destruct r as [[]|e'] eqn:Hre; simpl in H
  end; [discriminate|].
  injection H as <-. clear Hmin Hmax.
  destruct (truthy (setting this "regex")); [|discriminate].
  destruct (castThrowable (setting this "regex") _) as [regex error].
  apply (check_thrown h this (callTest h regex x) true error x);
    [apply callTest_throws | exact Hre].
Qed.

(** What a transformer of the table throws. *)
Lemma transformer_thrown h this ty t v e :
  Transformers.lookup ty = Some t -> t h this v = Throw e ->
  leafThrown this e
  \/ e = Error "Invalid number" \/ e = Error "Invalid function".
Proof.
  unfold Transformers.lookup. intros Ht H.
  repeat match type of Ht with
         | (if ?b then _ else _) = _ => destruct b
         end; simplify_eq.
  - left. by eapply String_parse_thrown.
  - unfold Transformers.Number_parse in H.
    destruct (toNumber h v) as [n|e'] eqn:Hn; simpl in H.
    + destruct (isNaN n); [|discriminate]. injection H as <-. right. by left.
    + injection H as <-. left. left. by eapply toNumber_throws.
  - unfold Transformers.Date_parse in H. left. left.
    assert (Hd : (let* s := toStringOf h v in
                  Ok (VDate (hostDateParse h s))) = Throw e ->
                 isTypeError e).
    { destruct (toStringOf h v) eqn:E; simpl; [discriminate|].
      intros [= <-]. by eapply toStringOf_throws. }
    destruct v as [| | |[|z]| | | | | |]; try discriminate; by apply Hd.
  - unfold Transformers.Function_parse in H.
    destruct v; try discriminate; injection H as <-; right; by right.
  - injection H as <-. left. left. by eexists.
Qed.

Lemma leafThrown_leafError this e : leafThrown this e -> leafError e.
Proof.
  intros [[m ->]|(m & val & ->)];
    [apply leafError_type | apply leafError_validation].
Qed.

Lemma transformer_throws h this ty t v e :
  Transformers.lookup ty = Some t -> t h this v = Throw e -> leafError e.
Proof.
  intros Ht H.
  destruct (transformer_thrown _ _ _ _ _ _ Ht H) as [He|[->| ->]];
    [by eapply leafThrown_leafError | |];
    apply leafError_invalid; intros f; discriminate.
Qed.

Lemma parseLeaf_throws h this v e :
  parseLeaf h this v = Throw e -> leafError e.
Proof.
  unfold parseLeaf, _run. intros H.
  destruct (Transformers.lookup (type this)) as [t|] eqn:Ht.
  - destruct (is_undefined _ && _); [discriminate|].
    match type of H with
    | bind ?r _ = _ => destruct r as [[]|e'] eqn:Hr; simpl in H
    end.
    + by eapply transformer_throws.
    + injection H as <-. leaf_throw.
  - injection H as <-. apply leafError_invalid. intros f; discriminate.
Qed.

Lemma subValue_throws h obj prop e :
  subValue h obj prop = Throw e -> leafError e.
Proof.
  unfold subValue. intros H.
  destruct obj; simpl in H; try discriminate.
  injection H as <-. apply leafError_type.
Qed.




(** What a branch throws: the outcome of the structural pre-pass, or the
    composite of the errors collected from its own paths. *)
Lemma parse_branch_throws h this cs v e :
  children this = Some cs ->
  parse h this v = Throw e ->
  (structureValidation this v = Throw e)
  \/ (structureValidation this v = Ok tt
      /\ exists errs,
          errs = (fold_left (childStep h (parse h) this v) (ownPaths this)
                            ([], [])).2
          /\ e = ValidationError "Data is not valid" errs VUndefined None).
Proof.
  intros Hcs. rewrite (parse_branch _ _ _ _ Hcs). unfold _parseNested.
  destruct (structureValidation this v) as [[]|e'] eqn:Hs; simpl.
  - intros H. right. split; [done|]. unfold parseFields in H.
    destruct (fold_left _ _ _) as [res errs]. simpl.
    destruct errs as [|e1 errs]; [discriminate|].
    injection H as <-. by eexists.
  - intros [= <-]. by left.
Qed.




(** ** The mapping assembled by a branch *)

Lemma assoc_assign_eq {A : Type} k (v : A) kvs :
  assoc k (assign k v kvs) = Some v.
Proof.
  induction kvs as [|[k' v'] kvs IH]; simpl.
  - by rewrite String.eqb_refl.
  - destruct (String.eqb k' k) eqn:E; simpl; rewrite E; [done | apply IH].
Qed.

Lemma assoc_assign_ne {A : Type} k k' (v : A) kvs :
  k' <> k -> assoc k' (assign k v kvs) = assoc k' kvs.
Proof.
  intros Hne. induction kvs as [|[k0 v0] kvs IH]; simpl.
  - destruct (String.eqb k k') eqn:E; [|done].
    apply String.eqb_eq in E. congruence.
  - destruct (String.eqb k0 k) eqn:E; simpl.
    + apply String.eqb_eq in E. subst k0.
      destruct (String.eqb k k') eqn:E'; [|done].
      apply String.eqb_eq in E'. congruence.
    + by rewrite IH.
Qed.

Lemma assoc_Some_key {A : Type} k (kvs : list (string * A)) a :
  assoc k kvs = Some a -> k ∈ map fst kvs.
Proof.
  induction kvs as [|[k' a'] kvs IH]; simpl; [done|].
  destruct (String.eqb k' k) eqn:E.
  - apply String.eqb_eq in E. subst. intros _. left.
  - intros H. right. by apply IH.
Qed.

Lemma assoc_None_key {A : Type} k (kvs : list (string * A)) :
  assoc k kvs = None -> k ∉ map fst kvs.
Proof.
  induction kvs as [|[k' a'] kvs IH]; simpl; [intros _; apply not_elem_of_nil|].
  destruct (String.eqb k' k) eqn:E; [done|].
  intros H. apply not_elem_of_cons. split; [|by apply IH].
  intros ->. by rewrite String.eqb_refl in E.
Qed.

Lemma assign_keys {A : Type} k (v : A) kvs :
  map fst (assign k v kvs)
  = if bool_decide (k ∈ map fst kvs) then map fst kvs
    else map fst kvs ++ [k].
Proof.
  induction kvs as [|[k' v'] kvs IH]; simpl; [done|].
  destruct (String.eqb k' k) eqn:E; simpl.
  - apply String.eqb_eq in E. subst.
    rewrite bool_decide_eq_true_2; [done | left].
  - rewrite IH. assert (k <> k') by (intros ->; by rewrite String.eqb_refl in E).
    destruct (bool_decide (k ∈ map fst kvs)) eqn:B.
    + apply bool_decide_eq_true in B.
      rewrite bool_decide_eq_true_2; [done | by right].
    + apply bool_decide_eq_false in B.
      rewrite bool_decide_eq_false_2; [done|].
      intros Hin. apply elem_of_cons in Hin as [?|?]; done.
Qed.

Lemma assign_NoDup {A : Type} k (v : A) kvs :
  NoDup (map fst kvs) -> NoDup (map fst (assign k v kvs)).
Proof.
  intros Hnd. rewrite assign_keys.
  destruct (bool_decide (k ∈ map fst kvs)) eqn:B; [done|].
  apply bool_decide_eq_false in B.
  apply NoDup_app. split; [done|]. split.
  - intros x Hx Hk. apply list_elem_of_singleton in Hk. by subst.
  - apply NoDup_singleton.
Qed.

(** The key decides the child, hence the value. *)
Lemma parseAtPath_key h f this obj p k val :
  parseAtPath h f this obj p = Ok (k, val) ->
  exists c, schemaAtPath this p = Some c /\ name c = k
            /\ k = firstSegment p
            /\ exists sub, subValue h obj k = Ok sub /\ f c sub = Ok val.
Proof.
  unfold parseAtPath.
  destruct (schemaAtPath this p) as [c|] eqn:Hc; [|discriminate].
  destruct (subValue h obj (name c)) as [sub|] eqn:Hs; simpl; [|discriminate].
  destruct (f c sub) as [val'|] eqn:Hf; simpl; [|discriminate].
  intros [= <- <-]. exists c. split; [done|]. split; [done|].
  split; [by eapply schemaAtPath_name|]. by exists sub.
Qed.

Lemma parseAtPath_det h f this obj p p' k val val' :
  parseAtPath h f this obj p = Ok (k, val) ->
  parseAtPath h f this obj p' = Ok (k, val') ->
  val = val'.
Proof.
  intros H H'.
  apply parseAtPath_key in H as (c & Hc & Hn & Hk & sub & Hs & Hf).
  apply parseAtPath_key in H' as (c' & Hc' & Hn' & Hk' & sub' & Hs' & Hf').
  unfold schemaAtPath in Hc, Hc'. rewrite <- Hk in Hc. rewrite <- Hk' in Hc'.
  rewrite Hc in Hc'. injection Hc' as <-.
  rewrite Hs in Hs'. injection Hs' as <-. congruence.
Qed.

Lemma undefined_or_not (v : value) : v = VUndefined \/ v <> VUndefined.
Proof. destruct v; (by left) || (right; discriminate). Qed.

Lemma assoc_objectAssign_eq {A : Type} k (v : A) kvs :
  k <> "__proto__" -> assoc k (objectAssign k v kvs) = Some v.
Proof.
  intros Hk. unfold objectAssign.
  destruct (String.eqb k "__proto__") eqn:E;
    [by apply String.eqb_eq in E | apply assoc_assign_eq].
Qed.

Lemma assoc_objectAssign_ne {A : Type} k k' (v : A) kvs :
  k' <> k -> assoc k' (objectAssign k v kvs) = assoc k' kvs.
Proof.
  intros Hk. unfold objectAssign.
  destruct (String.eqb k "__proto__"); [done | by apply assoc_assign_ne].
Qed.

Lemma objectAssign_NoDup {A : Type} k (v : A) kvs :
  NoDup (map fst kvs) -> NoDup (map fst (objectAssign k v kvs)).
Proof.
  unfold objectAssign.
  destruct (String.eqb k "__proto__"); [done | apply assign_NoDup].
Qed.

(** The walk over own paths that all parse successfully: no error is added,
    and the mapping gains exactly the keys, other than [__proto__], whose
    value is defined. *)
Lemma fold_childStep_ok h f this obj ps res errs :
  (forall p, p ∈ ps ->
             exists k val, parseAtPath h f this obj p = Ok (k, val)) ->
  (forall k val0, assoc k res = Some val0 ->
     forall p val, p ∈ ps -> parseAtPath h f this obj p = Ok (k, val) ->
                   val = val0) ->
  exists res',
    fold_left (childStep h f this obj) ps (res, errs) = (res', errs)
    /\ (forall k val,
          assoc k res' = Some val <->
          assoc k res = Some val
          \/ (val <> VUndefined /\ k <> "__proto__"
              /\ exists p, p ∈ ps
                           /\ parseAtPath h f this obj p = Ok (k, val)))
    /\ (NoDup (map fst res) -> NoDup (map fst res')).
Proof.
  revert res. induction ps as [|p ps IH]; intros res Hall Hcons; simpl.
  - exists res. split; [done|]. split; [|done].
    intros k val. split; [by left|].
    intros [H|(_ & _ & q & Hq & _)]; [done|]. by apply elem_of_nil in Hq.
  - destruct (Hall p) as (k1 & val1 & Hp); [left|].
    unfold childStep at 2. rewrite Hp. simpl.
    assert (Hall' : forall q, q ∈ ps ->
              exists k val, parseAtPath h f this obj q = Ok (k, val))
      by (intros q Hq; apply Hall; by right).
    assert (Hskip : val1 = VUndefined \/ k1 = "__proto__" ->
              exists res',
                fold_left (childStep h f this obj) ps (res, errs)
                = (res', errs)
                /\ (forall k val,
                      assoc k res' = Some val <->
                      assoc k res = Some val
                      \/ (val <> VUndefined /\ k <> "__proto__"
                          /\ exists q, q ∈ p :: ps
                               /\ parseAtPath h f this obj q = Ok (k, val)))
                /\ (NoDup (map fst res) -> NoDup (map fst res'))).
    { intros Hwhy.
      destruct (IH res Hall') as (res' & Hfold & Hiff & Hnd).
      { intros k val0 H0 q val Hq. apply (Hcons k val0 H0 q val). by right. }
      exists res'. split; [done|]. split; [|done].
      intros k val. rewrite Hiff. split.
      - intros [H|(Hv & Hk & q & Hq & Hpq)]; [by left|].
        right. split; [done|]. split; [done|].
        exists q. split; [by right | done].
      - intros [H|(Hv & Hk & q & Hq & Hpq)]; [by left|].
        apply elem_of_cons in Hq as [->|Hq].
        + rewrite Hp in Hpq. injection Hpq as <- <-.
          by destruct Hwhy.
        + right. split; [done|]. split; [done|]. by exists q. }
    destruct (is_undefined val1) eqn:Hu.
    { apply Hskip. left. by destruct val1. }
    unfold objectAssign. destruct (String.eqb k1 "__proto__") eqn:Hproto.
    { apply Hskip. right. by apply String.eqb_eq. }
    clear Hskip.
    assert (Hk1 : k1 <> "__proto__")
      by (intros ->; by rewrite String.eqb_refl in Hproto).
    assert (Hdef : val1 <> VUndefined) by (intros ->; discriminate).
    destruct (IH (assign k1 val1 res) Hall') as (res' & Hfold & Hiff & Hnd).
    { intros k val0 H0 q val Hq Hpq.
      destruct (decide (k = k1)) as [->|Hne].
      - rewrite assoc_assign_eq in H0. injection H0 as <-.
        by eapply parseAtPath_det.
      - rewrite assoc_assign_ne in H0 by done.
        apply (Hcons k val0 H0 q val); [by right | done]. }
    exists res'. split; [done|]. split.
    + intros k val. rewrite Hiff. split.
      * intros [H|(Hv & Hk & q & Hq & Hpq)].
        -- destruct (decide (k = k1)) as [->|Hne].
           ++ rewrite assoc_assign_eq in H. injection H as <-.
              right. split; [done|]. split; [done|].
              exists p. split; [left | done].
           ++ rewrite assoc_assign_ne in H by done. by left.
        -- right. split; [done|]. split; [done|].
           exists q. split; [by right | done].
      * intros [H|(Hv & Hk & q & Hq & Hpq)].
        -- left. destruct (decide (k = k1)) as [->|Hne].
           ++ rewrite assoc_assign_eq. f_equal.
              apply (Hcons k1 val H p val1); [left | done].
           ++ by rewrite assoc_assign_ne.
        -- apply elem_of_cons in Hq as [->|Hq].
           ++ rewrite Hp in Hpq. injection Hpq as <- <-.
              left. apply assoc_assign_eq.
           ++ right. split; [done|]. split; [done|]. by exists q.
    + intros H. by apply Hnd, assign_NoDup.
Qed.

(** The outcome of a branch whose own paths all parse successfully. *)
Lemma parse_branch_ok h this cs v :
  children this = Some cs ->
  structureValidation this v = Ok tt ->
  (forall p, p ∈ ownPaths this ->
             exists k val, parseAtPath h (parse h) this v p = Ok (k, val)) ->
  exists r,
    parse h this v = Ok r
    /\ (forall k val,
          valueAt r k = Some val <->
          val <> VUndefined /\ k <> "__proto__"
          /\ exists p, p ∈ ownPaths this
                       /\ parseAtPath h (parse h) this v p = Ok (k, val))
    /\ (r = VUndefined
        \/ exists kvs, r = VObject kvs /\ kvs <> []
                       /\ NoDup (map fst kvs)).
Proof.
  intros Hcs Hs Hall.
  destruct (fold_childStep_ok h (parse h) this v (ownPaths this) [] [] Hall)
    as (res & Hfold & Hiff & Hnd); [intros k val0 H; discriminate|].
  rewrite (parse_branch _ _ _ _ Hcs). unfold _parseNested. rewrite Hs. simpl.
  unfold parseFields. rewrite Hfold.
  assert (Hiff' : forall k val,
            assoc k res = Some val <->
            val <> VUndefined /\ k <> "__proto__"
            /\ exists p, p ∈ ownPaths this
                         /\ parseAtPath h (parse h) this v p = Ok (k, val)).
  { intros k val. rewrite Hiff. split; [intros [H|H]; [discriminate | done]|].
    intros H. by right. }
  destruct res as [|[k0 v0] res].
  - exists VUndefined. split; [done|]. split; [|by left].
    intros k val. rewrite <- Hiff'. done.
  - exists (VObject ((k0, v0) :: res)). split; [done|].
    split; [exact Hiff'|].
    right. eexists. split; [done|]. split; [done|]. apply Hnd. constructor.
Qed.

Lemma collect_not_nil errors e : collect errors e <> [].
Proof.
  destruct e as [m|m|m [|e' es] val fld]; simpl;
    by destruct errors.
Qed.

Lemma fold_childStep_errors_grow h f this obj ps acc :
  (fold_left (childStep h f this obj) ps acc).2 = [] -> acc.2 = [].
Proof.
  revert acc. induction ps as [|p ps IH]; intros acc H; simpl in H; [done|].
  apply IH in H. unfold childStep in H.
  destruct (parseAtPath h f this obj p) as [[k val]|e].
  - by destruct (is_undefined val).
  - simpl in H. by apply collect_not_nil in H.
Qed.

(** A walk that ends without errors parsed every own path successfully. *)
Lemma fold_childStep_no_error h f this obj ps acc :
  (fold_left (childStep h f this obj) ps acc).2 = [] ->
  forall p, p ∈ ps -> exists k val, parseAtPath h f this obj p = Ok (k, val).
Proof.
  revert acc. induction ps as [|p ps IH]; intros acc H q Hq.
  - by apply elem_of_nil in Hq.
  - simpl in H. apply elem_of_cons in Hq as [->|Hq]; [|by eapply IH].
    apply fold_childStep_errors_grow in H. unfold childStep in H.
    destruct (parseAtPath h f this obj p) as [[k val]|e]; [by eexists _, _|].
    simpl in H. by apply collect_not_nil in H.
Qed.

Lemma parse_branch_Ok h this cs v r :
  children this = Some cs ->
  parse h this v = Ok r ->
  structureValidation this v = Ok tt
  /\ forall p, p ∈ ownPaths this ->
               exists k val, parseAtPath h (parse h) this v p = Ok (k, val).
Proof.
  intros Hcs. rewrite (parse_branch _ _ _ _ Hcs). unfold _parseNested.
  destruct (structureValidation this v) as [[]|e]; simpl; [|discriminate].
  intros H. split; [done|]. unfold parseFields in H.
  destruct (fold_left _ _ _) as [res errs] eqn:Hfold.
  destruct errs; [|discriminate].
  apply (fold_childStep_no_error _ _ _ _ _ ([], [])). by rewrite Hfold.
Qed.

Lemma assoc_key_Some {A : Type} k (kvs : list (string * A)) :
  k ∈ map fst kvs -> exists a, assoc k kvs = Some a.
Proof.
  induction kvs as [|[k' a'] kvs IH]; simpl; intros H.
  - by apply elem_of_nil in H.
  - destruct (String.eqb k' k) eqn:E; [by eexists|].
    apply elem_of_cons in H as [->|H]; [|by apply IH].
    by rewrite String.eqb_refl in E.
Qed.

Lemma parseAtPath_own_key h f this obj p k val :
  parseAtPath h f this obj p = Ok (k, val) -> k ∈ ownPaths this.
Proof.
  intros H. apply parseAtPath_key in H as (c & Hc & <- & _).
  apply schemaAtPath_child in Hc as (cs & Hcs & Hin).
  unfold ownPaths. rewrite Hcs. simpl.
  apply list_elem_of_In, in_map. by apply list_elem_of_In.
Qed.

(** The walk depends on the input only through the outcomes of the own
    paths. *)
Lemma fold_childStep_same h f this obj obj' ps acc :
  (forall p, p ∈ ps ->
             parseAtPath h f this obj p = parseAtPath h f this obj' p) ->
  fold_left (childStep h f this obj) ps acc
  = fold_left (childStep h f this obj') ps acc.
Proof.
  revert acc. induction ps as [|p ps IH]; intros acc H; simpl; [done|].
  unfold childStep at 2 4. rewrite (H p) by left.
  apply IH. intros q Hq. apply H. by right.
Qed.

Lemma find_NoDup_name cs c :
  NoDup (map name cs) -> c ∈ cs ->
  List.find (fun x => String.eqb (name x) (name c)) cs = Some c.
Proof.
  induction cs as [|x cs IH]; intros Hnd Hc; [by apply elem_of_nil in Hc|].
  simpl in *. apply NoDup_cons in Hnd as [Hx Hnd].
  apply elem_of_cons in Hc as [->|Hc]; [by rewrite String.eqb_refl|].
  destruct (String.eqb (name x) (name c)) eqn:E; [|by apply IH].
  apply String.eqb_eq in E. exfalso. apply Hx. rewrite E.
  by apply list_elem_of_fmap_2.
Qed.

(** In a branch whose own paths are distinct and have no dot, the try block
    of [_parseNested] evaluates, for the path of a child, the [parse] of
    that very child on the value the input has under its name. *)
Lemma parseAtPath_child h this cs v c sub val :
  children this = Some cs ->
  NoDup (ownPaths this) ->
  Forall (fun p => firstSegment p = p /\ p <> "__proto__") (ownPaths this) ->
  c ∈ cs ->
  subValue h v (name c) = Ok sub ->
  parse h c sub = Ok val ->
  name c <> "__proto__"
  /\ parseAtPath h (parse h) this v (name c) = Ok (name c, val).
Proof.
  intros Hcs Hnd Hplain Hc Hsub Hval.
  assert (Hin : name c ∈ ownPaths this).
  { unfold ownPaths. rewrite Hcs. by apply list_elem_of_fmap_2. }
  rewrite Forall_forall in Hplain. destruct (Hplain _ Hin) as [Hseg Hproto].
  split; [done|]. unfold parseAtPath, schemaAtPath.
  unfold ownPaths in Hnd. rewrite Hcs in *. simpl in *.
  rewrite Hseg, (find_NoDup_name _ _ Hnd Hc), Hsub. simpl.
  by rewrite Hval.
Qed.

(** C5 (amended): take a branch whose own paths are distinct, have no dot
    and are not [__proto__], an input that passes the structural pre-pass,
    and suppose every child parses successfully the value the input has
    under the child's name.  Then the branch returns a result [r]; for
    every child, [r] has under the child's name the value the child's
    [parse] returned, and no entry at all when that value is [undefined];
    [r] has no other key; [r] is [undefined] exactly when every child
    returned [undefined], and otherwise a mapping with at least one key and
    no key twice. *)
Theorem branch_result h this cs v :
  children this = Some cs ->
  NoDup (ownPaths this) ->
  Forall (fun p => firstSegment p = p /\ p <> "__proto__") (ownPaths this) ->
  structureValidation this v = Ok tt ->
  (forall c, c ∈ cs ->
             exists sub val,
               subValue h v (name c) = Ok sub /\ parse h c sub = Ok val) ->
  exists r,
    parse h this v = Ok r
    /\ (forall c sub val,
          c ∈ cs -> subValue h v (name c) = Ok sub ->
          parse h c sub = Ok val ->
          valueAt r (name c) = if is_undefined val then None else Some val)
    /\ (forall k, is_Some (valueAt r k) -> k ∈ ownPaths this)
    /\ (r = VUndefined <->
        forall c sub val,
          c ∈ cs -> subValue h v (name c) = Ok sub ->
          parse h c sub = Ok val -> val = VUndefined)
    /\ (r = VUndefined
        \/ exists kvs, r = VObject kvs /\ kvs <> []
                       /\ NoDup (map fst kvs)).
Proof.
  intros Hcs Hnd Hplain Hs Hall.
  assert (Hpaths : forall p, p ∈ ownPaths this ->
            exists k val, parseAtPath h (parse h) this v p = Ok (k, val)).
  { intros p Hp. unfold ownPaths in Hp. rewrite Hcs in Hp. simpl in Hp.
    apply list_elem_of_fmap in Hp as (c & -> & Hc).
    destruct (Hall c Hc) as (sub & val & Hsub & Hval).
    exists (name c), val.
    by apply (parseAtPath_child h this cs v c sub val). }
  destruct (parse_branch_ok h this cs v Hcs Hs Hpaths)
    as (r & Hr & Hiff & Hshape).
  assert (Hat : forall c sub val,
            c ∈ cs -> subValue h v (name c) = Ok sub ->
            parse h c sub = Ok val ->
            valueAt r (name c) = if is_undefined val then None else Some val).
  { intros c sub val Hc Hsub Hval.
    destruct (parseAtPath_child h this cs v c sub val Hcs Hnd Hplain Hc
                Hsub Hval) as [Hproto Hpp].
    assert (Hin : name c ∈ ownPaths this).
    { unfold ownPaths. rewrite Hcs. by apply list_elem_of_fmap_2. }
    destruct (is_undefined val) eqn:Hu.
    - destruct (valueAt r (name c)) as [val'|] eqn:Hval'; [|done].
      apply (Hiff _ val') in Hval' as (Hne & _ & q & _ & Hq).
      rewrite (parseAtPath_det _ _ _ _ _ _ _ _ _ Hq Hpp) in Hne.
      by destruct val.
    - apply Hiff. split; [intros ->; discriminate|]. split; [done|].
      by exists (name c). }
  exists r. split; [done|]. split; [exact Hat|]. split; [|split; [|done]].
  - intros k [val Hk]. apply (Hiff k val) in Hk as (_ & _ & p & _ & Hpp).
    by eapply parseAtPath_own_key.
  - split.
    + intros -> c sub val Hc Hsub Hval.
      specialize (Hat c sub val Hc Hsub Hval). simpl in Hat.
      destruct val; simpl in Hat; done.
    + intros Hnone. destruct Hshape as [|(kvs & -> & Hne & _)]; [done|].
      exfalso. destruct kvs as [|[k0 v0] kvs]; [done|].
      assert (valueAt (VObject ((k0, v0) :: kvs)) k0 = Some v0) as Hx
        by (simpl; by rewrite String.eqb_refl).
      apply Hiff in Hx as (Hv0 & _ & p & _ & Hpp).
      apply parseAtPath_key in Hpp as (c & Hc & <- & _ & sub & Hsub & Hval).
      destruct (schemaAtPath_child _ _ _ Hc) as (cs' & Hcs' & Hin).
      rewrite Hcs in Hcs'. injection Hcs' as <-.
      by apply Hv0, (Hnone c sub v0).
Qed.

Lemma branch_result_witness :
  parse exampleHost contactSchema (VObject [("name", VString "Tin")])
  = Ok (VObject [("name", VString "Tin")])
  /\ (forall c sub val,
        c ∈ [plainNameLeaf; ageLeaf] ->
        subValue exampleHost (VObject [("name", VString "Tin")]) (name c)
        = Ok sub ->
        parse exampleHost c sub = Ok val ->
        valueAt (VObject [("name", VString "Tin")]) (name c)
        = if is_undefined val then None else Some val)
  /\ (forall k, is_Some (valueAt (VObject [("name", VString "Tin")]) k) ->
                k ∈ ownPaths contactSchema)
  /\ (VObject [("name", VString "Tin")] = VUndefined <->
      forall c sub val,
        c ∈ [plainNameLeaf; ageLeaf] ->
        subValue exampleHost (VObject [("name", VString "Tin")]) (name c)
        = Ok sub ->
        parse exampleHost c sub = Ok val -> val = VUndefined)
  /\ (VObject [("name", VString "Tin")] = VUndefined
      \/ exists kvs, VObject [("name", VString "Tin")] = VObject kvs
                     /\ kvs <> [] /\ NoDup (map fst kvs)).
Proof.
  destruct (branch_result exampleHost contactSchema
              [plainNameLeaf; ageLeaf] (VObject [("name", VString "Tin")])
              eq_refl ltac:(by_decide)
              ltac:(repeat constructor; discriminate) eq_refl)
    as (r & Hr & H).
  - intros c Hc.
    apply elem_of_cons in Hc as [->|Hc]; [by eexists _, _|].
    apply elem_of_cons in Hc as [->|Hc]; [by eexists _, _|].
    by apply elem_of_nil in Hc.
  - injection Hr as <-. exact (conj eq_refl H).
Defined.

(** The definition [{a: String, 'a.b': Number}] is built into
    [shadowedSchema], whose own paths are [a] and [a.b].  On the input
    [{a: 'x', 'a.b': 5}] both children parse successfully the value under
    their name, the second one to [5]; yet the own path [a.b] is resolved
    through its first segment to the child [a], and the result has no key
    [a.b]. *)
Lemma dotted_own_path_has_no_key :
  newSchema (VObject [("a", VFunction "String"); ("a.b", VFunction "Number")])
            "" ""
  = Ok shadowedSchema
  /\ ownPaths shadowedSchema = ["a"; "a.b"]
  /\ structureValidation shadowedSchema
       (VObject [("a", VString "x"); ("a.b", VNumber (Fin 5))]) = Ok tt
  /\ subValue exampleHost
       (VObject [("a", VString "x"); ("a.b", VNumber (Fin 5))]) "a"
     = Ok (VString "x")
  /\ parse exampleHost (mkSchema "a" "" "String" [] None) (VString "x")
     = Ok (VString "x")
  /\ subValue exampleHost
       (VObject [("a", VString "x"); ("a.b", VNumber (Fin 5))]) "a.b"
     = Ok (VNumber (Fin 5))
  /\ parse exampleHost (mkSchema "a.b" "" "Number" [] None) (VNumber (Fin 5))
     = Ok (VNumber (Fin 5))
  /\ parse exampleHost shadowedSchema
       (VObject [("a", VString "x"); ("a.b", VNumber (Fin 5))])
     = Ok (VObject [("a", VString "x")])
  /\ valueAt (VObject [("a", VString "x")]) "a.b" = None.
Proof. repeat split. Qed.

(** ** Parsing a sanitized value again *)

(** C7: what the code does when a sanitized value is parsed again.  The
    [Number] transformer converts its input with [Number(v)] whatever the
    settings are, so the schema [{age: Number}] accepts [{age: '36'}] and
    the leaf [{type: Number, default: 5}] turns the truthy string ['0'] into
    the falsy number [0]; parsing that result again replaces it by the
    default [5].  Likewise the leaf [{type: Number, required: true}] turns
    ['0'] into [0] and then rejects [0].  The [String] transformer replaces
    an object with an own [toString] by what [toString] returns: when that
    is the number [5], the leaf [{type: String}] returns [5] and then
    rejects [5]. *)
Theorem second_parse_differs :
  newSchema (VObject [("age", VFunction "Number")]) "" "" = Ok ageSchema
  /\ parse exampleHost ageSchema (VObject [("age", VString "36")])
     = Ok (VObject [("age", VNumber (Fin 36))])
  /\ newSchema (VObject [("type", VFunction "Number");
                         ("default", VNumber (Fin 5))]) "" ""
     = Ok numberWithDefault
  /\ parse exampleHost numberWithDefault (VString "0") = Ok (VNumber (Fin 0))
  /\ parse exampleHost numberWithDefault (VNumber (Fin 0))
     = Ok (VNumber (Fin 5))
  /\ newSchema (VObject [("type", VFunction "Number");
                         ("required", VBool true)]) "" ""
     = Ok requiredNumber
  /\ parse exampleHost requiredNumber (VString "0") = Ok (VNumber (Fin 0))
  /\ parse exampleHost requiredNumber (VNumber (Fin 0))
     = Throw (ValidationError "Field  is required" [] (VNumber (Fin 0))
                (Some requiredNumber))
  /\ hostMethod exampleHost "five"
       (VObject [("toString", VFunction "five")]) [] = VNumber (Fin 5)
  /\ parse exampleHost plainNameLeaf
       (VObject [("toString", VFunction "five")]) = Ok (VNumber (Fin 5))
  /\ parse exampleHost plainNameLeaf (VNumber (Fin 5))
     = Throw (ValidationError "Invalid string" [] (VNumber (Fin 5))
                (Some plainNameLeaf)).
Proof. repeat split. Qed.

(** ** The store: what a parse writes *)

Lemma parseLeafS_framed h this : framed (parseLeafS h this).
Proof.
  intros x σ out σ'. unfold parseLeafS. intros [= <- <-]. split; [done|].
  intros r. by destruct (parseLeaf h this (snapshot σ x)).
Qed.

Lemma parserOfS_framed table c :
  Forall (fun e => framed e.2) table -> framed (parserOfS table c).
Proof.
  intros Htable. unfold parserOfS.
  destruct (List.find _ table) as [e|] eqn:Hfind.
  - apply find_some in Hfind as [Hin _].
    rewrite Forall_forall in Htable. by apply Htable, list_elem_of_In.
  - intros x σ out σ' [= <- <-]. split; [done|]. intros r. discriminate.
Qed.

Lemma childStepS_framed h parseChild this obj r σ0 acc p :
  (forall c, framed (parseChild c)) ->
  σ0 !! r = None ->
  σ0 ⊆ acc.1 ->
  σ0 ⊆ (childStepS h parseChild this obj r acc p).1.
Proof.
  intros Hchild Hr Hacc. unfold childStepS.
  destruct (schemaAtPath this p) as [c|]; [|done].
  destruct (subValueS h acc.1 obj (name c)) as [sub|e]; [|done].
  destruct (parseChild c sub acc.1) as [out σ1] eqn:Hrun.
  apply Hchild in Hrun as [Hsub _].
  assert (σ0 ⊆ σ1) by (by etrans).
  destruct out as [val|e]; [|done].
  destruct (isUndefinedS val); simpl; [done|].
  by apply insert_subseteq_r.
Qed.

Lemma fold_childStepS_framed h parseChild this obj r σ0 ps acc :
  (forall c, framed (parseChild c)) ->
  σ0 !! r = None ->
  σ0 ⊆ acc.1 ->
  σ0 ⊆ (fold_left (childStepS h parseChild this obj r) ps acc).1.
Proof.
  intros Hchild Hr. revert acc.
  induction ps as [|p ps IH]; intros acc Hacc; simpl; [done|].
  apply IH. by apply childStepS_framed.
Qed.

Lemma _parseNestedS_framed h parseChild this :
  (forall c, framed (parseChild c)) ->
  framed (_parseNestedS h parseChild this).
Proof.
  intros Hchild x σ out σ'. unfold _parseNestedS.
  destruct (structureValidation this (snapshot σ x)) as [[]|e].
  - set (r := fresh (dom σ)).
    assert (Hr : σ !! r = None)
      by (apply not_elem_of_dom; apply is_fresh).
    pose proof (fold_childStepS_framed h parseChild this x r σ (ownPaths this)
                  (<[r := []]> σ, []) Hchild Hr) as Hfold.
    destruct (fold_left _ _ _) as [σ1 errors]. simpl in Hfold.
    specialize (Hfold (insert_subseteq _ _ _ Hr)).
    destruct errors as [|e errors]; intros [= <- <-].
    + split; [done|]. intros r'.
      destruct (σ1 !! r) as [[|kv kvs]|] eqn:Hlook; try discriminate.
      intros [= <-]. split; [done|]. by rewrite Hlook.
    + split; [done|]. intros r'. discriminate.
  - intros [= <- <-]. split; [done|]. intros r. discriminate.
Qed.

Lemma parseS_framed h this : framed (parseS h this).
Proof.
  induction this as [nm pp ty st|nm pp ty st cs IH] using Schema_tree_ind.
  - apply parseLeafS_framed.
  - simpl. apply _parseNestedS_framed. intros c. apply parserOfS_framed.
    apply Forall_forall. intros e He.
    apply list_elem_of_In, in_map_iff in He as (c' & <- & Hc').
    rewrite Forall_forall in IH. by apply IH, list_elem_of_In.
Qed.

(** C9: parsing a mapping held at [l] with a branch leaves [l], and every
    other object of the store, as it was, whether the parse returns or
    throws; a successful parse returns [undefined] or a reference to a
    mapping that was not in the store before the call, hence distinct from
    the input. *)
Theorem parse_does_not_mutate h this cs l σ out σ' :
  children this = Some cs ->
  is_Some (σ !! l) ->
  parseS h this (Ref l) σ = (out, σ') ->
  σ' !! l = σ !! l
  /\ σ ⊆ σ'
  /\ forall x, out = Ok x ->
       x = Plain VUndefined
       \/ exists r, x = Ref r /\ r <> l /\ σ !! r = None /\ is_Some (σ' !! r).
Proof.
  intros Hcs [o Ho] Hrun.
  destruct (parseS_framed h this _ _ _ _ Hrun) as [Hsub Hfresh].
  split; [|split; [done|]].
  - rewrite Ho. by eapply lookup_weaken.
  - intros x ->.
    destruct this as [nm pp ty st [cs'|]]; [|discriminate].
    simpl in Hrun. unfold _parseNestedS in Hrun.
    destruct (structureValidation _ _) as [[]|e]; [|discriminate].
    destruct (fold_left _ _ _) as [σ1 errors].
    destruct errors; [|discriminate].
    injection Hrun as <- <-.
    match goal with
    | |- context [match ?t with _ => _ end] =>
        destruct t as [[|kv kvs]|]; [by left| |by left]
    end.
    right. eexists. split; [done|].
    destruct (Hfresh _ eq_refl) as [Hnone Hsome]. split; [|done].
    intros Heq. rewrite Heq, Ho in Hnone. discriminate.
Qed.

Lemma parse_does_not_mutate_witness :
  let run := parseS exampleHost contactSchema (Ref 1%positive) contactStore in
  run.1 = Ok (Ref 2%positive)
  /\ run.2 !! 1%positive = contactStore !! 1%positive
  /\ contactStore ⊆ run.2
  /\ forall x, run.1 = Ok x ->
       x = Plain VUndefined
       \/ exists r, x = Ref r /\ r <> 1%positive
                    /\ contactStore !! r = None /\ is_Some (run.2 !! r).
Proof.
  intros run. split; [by vm_compute|].
  apply (parse_does_not_mutate exampleHost contactSchema _ 1%positive
           contactStore run.1 run.2 eq_refl).
  - unfold contactStore. rewrite lookup_singleton_eq. by eexists.
  - apply surjective_pairing.
Defined.

(** ** The store pipeline computes what the pure pipeline computes *)

Lemma denotes_mono σ σ' (L L' : gset loc) y r :
  L ⊆ L' ->
  (forall l, l ∈ L -> σ' !! l = σ !! l) ->
  denotes σ L y r -> denotes σ' L' y r.
Proof.
  intros HL Hσ. revert y r. fix IH 3. intros y r H.
  destruct H as [v|l props kvs Hl Hlook Hall].
  - constructor.
  - econstructor; [by apply HL | by rewrite Hσ |].
    clear Hlook. induction Hall as [|p q ps qs [Hk Hd] Hall IHall]; [constructor|].
    constructor; [|done]. split; [done | by apply IH].
Qed.

Lemma snapshotTo_plain d σ v : snapshotTo d σ (Plain v) = v.
Proof. by destruct d. Qed.

Lemma stableAt_plain d σ v : stableAt d σ (Plain v) v.
Proof. intros d' σ' _ _. apply snapshotTo_plain. Qed.

Lemma stableAt_weaken d σ σ' x v :
  σ ⊆ σ' -> stableAt d σ x v -> stableAt d σ' x v.
Proof. intros Hsub H d' σ'' Hd Hsub'. apply H; [done | by etrans]. Qed.

Lemma stableAt_snapshot d σ x v :
  stableAt d σ x v -> d <= size σ -> snapshot σ x = v.
Proof. intros H Hd. by apply H. Qed.

Lemma assoc_map {A B : Type} (f : A -> B) k (kvs : list (string * A)) :
  assoc k (map (fun kv => (kv.1, f kv.2)) kvs) = f <$> assoc k kvs.
Proof.
  induction kvs as [|[k' a] kvs IH]; simpl; [done|].
  by destruct (String.eqb k' k).
Qed.

(** Reading a property of the input: the store and the pure model read the
    same thing. *)
Lemma subValueS_refines h d σ σc x v prop :
  stableAt d σ x v -> d <= size σ -> σ ⊆ σc ->
  match subValueS h σc x prop with
  | Ok sub =>
      exists subv, subValue h v prop = Ok subv /\ stableAt d σ sub subv
  | Throw e => subValue h v prop = Throw e
  end.
Proof.
  intros Hst Hd Hsub. destruct x as [v0|l]; simpl.
  - assert (v0 = v) as ->
      by (rewrite <- (Hst d σ (le_n d) (reflexivity σ));
          by rewrite snapshotTo_plain).
    destruct (subValue h v prop) as [subv|e]; [|done].
    exists subv. split; [done | apply stableAt_plain].
  - destruct (σ !! l) as [props|] eqn:Hl.
    + rewrite (lookup_weaken _ _ _ _ Hl Hsub). simpl.
      assert (Hsnap : snapshot σc (Ref l) = v).
      { apply Hst; [|done].
        etrans; [exact Hd | by apply map_subseteq_size]. }
      rewrite Hsnap. clear Hsnap.
      pose proof (Hst (S d) σ (le_S _ _ (le_n d)) (reflexivity σ)) as Hv.
      simpl in Hv. rewrite Hl in Hv. subst v.
      unfold subValue, getProp. cbn [typeof hasOwnProperty ownProp].
      rewrite assoc_map.
      destruct (assoc prop props) as [sub|] eqn:Ha; simpl.
      * eexists. split; [done|]. intros d' σ' Hd' Hsub'.
        pose proof (Hst (S d') σ' (le_S _ _ Hd') Hsub') as Hv'.
        simpl in Hv'. rewrite (lookup_weaken _ _ _ _ Hl Hsub') in Hv'.
        injection Hv' as Hv'.
        apply (f_equal (assoc prop)) in Hv'. rewrite !assoc_map, Ha in Hv'.
        simpl in Hv'. by injection Hv'.
      * eexists. split; [done | apply stableAt_plain].
    + exfalso.
      pose proof (Hst (S d) σ (le_S _ _ (le_n d)) (reflexivity σ)) as Hv.
      pose proof (Hst (S d) (<[l := []]> σ) (le_S _ _ (le_n d))
                    (insert_subseteq _ _ _ Hl)) as Hv'.
      simpl in Hv, Hv'. rewrite Hl in Hv. rewrite lookup_insert_eq in Hv'.
      congruence.
Qed.

Lemma Forall2_denotes_mono σ σ' (L L' : gset loc)
    (props : list (string * sval)) (kvs : list (string * value)) :
  L ⊆ L' ->
  (forall l, l ∈ L -> σ' !! l = σ !! l) ->
  Forall2 (fun p q => p.1 = q.1 /\ denotes σ L p.2 q.2) props kvs ->
  Forall2 (fun p q => p.1 = q.1 /\ denotes σ' L' p.2 q.2) props kvs.
Proof.
  intros HL Hσ Hall. eapply Forall2_impl; [exact Hall|].
  intros p q [Hk Hd]. split; [done | by eapply denotes_mono].
Qed.

Lemma Forall2_assign {A B : Type} (R : A -> B -> Prop) k a b
    (ps : list (string * A)) (qs : list (string * B)) :
  Forall2 (fun p q => p.1 = q.1 /\ R p.2 q.2) ps qs ->
  R a b ->
  Forall2 (fun p q => p.1 = q.1 /\ R p.2 q.2)
          (objectAssign k a ps) (objectAssign k b qs).
Proof.
  intros Hall Hab. unfold objectAssign.
  destruct (String.eqb k "__proto__"); [done|].
  induction Hall as [|[k1 a1] [k2 b1] ps qs [Hk Hr] Hall IH]; simpl.
  - by repeat constructor.
  - simpl in Hk. subst k2. destruct (String.eqb k1 k); by constructor.
Qed.

Lemma subseteq_lookup_dom (σ σ' : store) l :
  σ ⊆ σ' -> l ∈ dom σ -> σ' !! l = σ !! l.
Proof.
  intros Hsub [o Ho]%elem_of_dom. rewrite Ho. by eapply lookup_weaken.
Qed.

Lemma isUndefinedS_denotes σ L y r :
  denotes σ L y r -> isUndefinedS y = is_undefined r.
Proof. by intros []. Qed.

(** The state is kept related when the store grows without [r] being
    written. *)
Lemma related_grow σ r σc σ1 errs accP :
  related σ r (σc, errs) accP -> σc ⊆ σ1 -> related σ r (σ1, errs) accP.
Proof.
  intros (He & Hsub & props & Hr & Hall) Hgrow. simpl in *.
  split; [done|]. split; [by etrans|]. exists props.
  split; [by eapply lookup_weaken|].
  eapply Forall2_denotes_mono; [| |exact Hall].
  - apply subseteq_dom in Hgrow. intros l.
    rewrite !elem_of_difference. intros [[Hl Hn] Hr']. auto.
  - intros l Hl. apply subseteq_lookup_dom; [done|].
    by apply elem_of_difference in Hl as [[Hl _]%elem_of_difference _].
Qed.

Lemma related_collect σ r σc errs res errs' e :
  related σ r (σc, errs) (res, errs') ->
  related σ r (σc, collect errs e) (res, collect errs' e).
Proof. intros (He & H). simpl in He. subst. by split. Qed.

(** One step of the two walks. *)
Lemma childStepS_refines h this obj v d σ r parseChild accS accP p :
  (forall c, schemaAtPath this p = Some c ->
             refines h c (parseChild c) /\ framed (parseChild c)) ->
  stableAt d σ obj v -> d <= size σ -> σ !! r = None ->
  related σ r accS accP ->
  related σ r (childStepS h parseChild this obj r accS p)
            (childStep h (parse h) this v accP p).
Proof.
  intros Hchild Hst Hd Hr Hrel.
  destruct accS as [σc errs], accP as [res errs'].
  pose proof Hrel as (He & Hsub & props & Hlook & Hall).
  cbn [fst snd] in He, Hsub, Hlook, Hall.
  unfold childStepS, childStep, parseAtPath. cbn [fst snd].
  destruct (schemaAtPath this p) as [c|] eqn:Hc;
    [|by apply related_collect].
  destruct (Hchild c eq_refl) as [Hrefines Hframed].
  pose proof (subValueS_refines h d σ σc obj v (name c) Hst Hd Hsub) as Hsv.
  destruct (subValueS h σc obj (name c)) as [sub|e].
  2:{ rewrite Hsv. cbn [bind]. by apply related_collect. }
  destruct Hsv as (subv & -> & Hsubst). cbn [bind].
  destruct (parseChild c sub σc) as [out σ1] eqn:Hrun.
  pose proof (Hframed _ _ _ _ Hrun) as [Hgrow _].
  pose proof (Hrefines d sub σc subv out σ1
                (stableAt_weaken _ _ _ _ _ Hsub Hsubst)
                (Nat.le_trans _ _ _ Hd (map_subseteq_size _ _ Hsub)) Hrun)
    as Hout.
  destruct out as [y|e].
  2:{ rewrite Hout. cbn [bind]. apply related_collect. by eapply related_grow. }
  destruct Hout as (r' & -> & Hden). cbn [bind].
  rewrite <- (isUndefinedS_denotes _ _ _ _ Hden).
  destruct (isUndefinedS y); [by eapply related_grow|].
  pose proof (lookup_weaken _ _ _ _ Hlook Hgrow) as Hlook1.
  rewrite Hlook1. cbn [default].
  assert (Hr1 : r ∈ dom σc) by (apply elem_of_dom; by eexists).
  split; [done|]. split; [apply insert_subseteq_r; [done | by etrans]|].
  cbn [fst snd]. eexists. split; [apply lookup_insert_eq|].
  apply Forall2_assign.
  - eapply Forall2_denotes_mono; [| |exact Hall].
    + intros l. rewrite !elem_of_difference, dom_insert_L.
      intros [[Hl Hn] Hne]. repeat split; [|done|done].
      apply elem_of_union_r. by apply (subseteq_dom _ _ Hgrow).
    + intros l [[Hl _]%elem_of_difference Hne%not_elem_of_singleton]
        %elem_of_difference.
      rewrite lookup_insert_ne by done. by apply subseteq_lookup_dom.
  - eapply denotes_mono; [| |exact Hden].
    + intros l. rewrite !elem_of_difference, dom_insert_L.
      intros [Hl Hn]. repeat split.
      * by apply elem_of_union_r.
      * intros Hin. apply Hn. by apply (subseteq_dom _ _ Hsub).
      * intros ->%elem_of_singleton. by apply Hn.
    + intros l [Hl Hn]%elem_of_difference.
      rewrite lookup_insert_ne; [done|]. intros <-. by apply Hn.
Qed.

Lemma fold_childStepS_refines h this obj v d σ r parseChild ps accS accP :
  (forall p c, schemaAtPath this p = Some c ->
               refines h c (parseChild c) /\ framed (parseChild c)) ->
  stableAt d σ obj v -> d <= size σ -> σ !! r = None ->
  related σ r accS accP ->
  related σ r (fold_left (childStepS h parseChild this obj r) ps accS)
            (fold_left (childStep h (parse h) this v) ps accP).
Proof.
  intros Hchild Hst Hd Hr. revert accS accP.
  induction ps as [|p ps IH]; intros accS accP Hrel; simpl; [done|].
  apply IH. eapply childStepS_refines; eauto.
Qed.

Lemma parserOfS_resolved (f : Schema -> sval -> store -> result sval * store)
    nm pp ty st cs p c :
  schemaAtPath (mkSchema nm pp ty st (Some cs)) p = Some c ->
  parserOfS (map (fun c => (c, f c)) cs) c = f c.
Proof.
  intros Hc. unfold parserOfS. rewrite find_name_map.
  pose proof (schemaAtPath_name _ _ _ Hc) as Hn.
  unfold schemaAtPath in Hc. simpl in Hc. by rewrite Hn, Hc.
Qed.

(** The store pipeline refines the pure one: on an input that reads as [v],
    it throws what [parse] throws on [v] and returns a value standing for
    what [parse] returns, held in objects allocated during the call. *)
Lemma parseS_refines h this : refines h this (parseS h this).
Proof.
  induction this as [nm pp ty st|nm pp ty st cs IH] using Schema_tree_ind;
    intros d x σ v out σ' Hst Hd Hrun.
  - simpl in Hrun. unfold parseLeafS in Hrun.
    rewrite (stableAt_snapshot _ _ _ _ Hst Hd) in Hrun.
    rewrite parse_leaf by done.
    destruct (parseLeaf h _ v) as [r|e]; injection Hrun as <- <-;
      [|done].
    exists r. split; [done | constructor].
  - rewrite (parse_branch h (mkSchema nm pp ty st (Some cs)) v cs eq_refl).
    simpl in Hrun. unfold _parseNestedS in Hrun. unfold _parseNested.
    rewrite (stableAt_snapshot _ _ _ _ Hst Hd) in Hrun.
    destruct (structureValidation _ v) as [[]|e]; cbn [bind];
      [|by injection Hrun as <- <-].
    set (this := mkSchema nm pp ty st (Some cs)) in *.
    set (r := fresh (dom σ)) in *.
    assert (Hr : σ !! r = None) by (apply not_elem_of_dom, is_fresh).
    assert (Hchild : forall p c, schemaAtPath this p = Some c ->
              refines h c (parserOfS (map (fun c => (c, parseS h c)) cs) c)
              /\ framed (parserOfS (map (fun c => (c, parseS h c)) cs) c)).
    { intros p c Hc. rewrite (parserOfS_resolved _ _ _ _ _ _ _ _ Hc).
      split; [|apply parseS_framed].
      destruct (schemaAtPath_child _ _ _ Hc) as (cs' & [= <-] & Hin).
      rewrite Forall_forall in IH. by apply IH. }
    pose proof (fold_childStepS_refines h this x v d σ r _ (ownPaths this)
                  (<[r := []]> σ, []) ([], []) Hchild Hst Hd Hr) as Hfold.
    unfold parseFields.
    destruct (fold_left (childStepS _ _ this x r) _ _) as [σ1 errs].
    destruct (fold_left (childStep h (parse h) this v) _ _) as [res errs'].
    destruct Hfold as (He & Hsub & props & Hlook & Hall).
    { split; [done|]. split; [by apply insert_subseteq|]. exists [].
      split; [apply lookup_insert_eq | constructor]. }
    cbn [fst snd] in He, Hsub, Hlook, Hall. subst errs'.
    destruct errs as [|e errs]; injection Hrun as <- <-; [|done].
    rewrite Hlook.
    destruct Hall as [|p q props res Hpq Hall].
    + exists VUndefined. split; [done | constructor].
    + exists (VObject (q :: res)). split; [done|].
      econstructor; [|exact Hlook|].
      * apply elem_of_difference. split; [by apply elem_of_dom|].
        by apply not_elem_of_dom.
      * eapply Forall2_denotes_mono; [|done|by constructor].
        intros l. rewrite !elem_of_difference. by intros [[? ?] _].
Qed.

(** The sample store's input reads as [{name: 'Tin', age: '36'}], so the
    store parse of it agrees with the pure parse of that mapping. *)
Example contactStore_stable :
  stableAt 1 contactStore (Ref 1%positive)
    (VObject [("name", VString "Tin"); ("age", VString "36")]).
Proof.
  intros d' σ' Hd Hsub. destruct d' as [|d']; [lia|]. simpl.
  erewrite lookup_weaken; [|apply lookup_singleton_eq|exact Hsub].
  simpl. by rewrite !snapshotTo_plain.
Qed.

Example contactStore_parse :
  let run := parseS exampleHost contactSchema (Ref 1%positive) contactStore in
  run.1 = Ok (Ref 2%positive)
  /\ exists r,
       parse exampleHost contactSchema
         (VObject [("name", VString "Tin"); ("age", VString "36")]) = Ok r
       /\ denotes run.2 (dom run.2 ∖ dom contactStore) (Ref 2%positive) r.
Proof.
  intros run. assert (Hrun : run.1 = Ok (Ref 2%positive)) by (by vm_compute).
  split; [done|].
  pose proof (parseS_refines exampleHost contactSchema 1 (Ref 1%positive)
                contactStore _ run.1 run.2 contactStore_stable
                ltac:(vm_compute; lia) (surjective_pairing _)) as H.
  by rewrite Hrun in H.
Qed.

(** * Further properties of the code *)

(** ** Leaves: [_run] and the transformers *)

(** X1: a type name under which [Transformers] has nothing, neither an
    entry of its own nor a property inherited from [Object.prototype], is
    rejected before anything else in [_run]: the leaf throws "Don't know how
    to resolve <type>" for every input, [undefined] on an optional field
    included, and a branch that reaches such a leaf through one of its own
    paths never returns. *)
Theorem unresolved_type_never_parses h this cs p c :
  children this = Some cs ->
  p ∈ ownPaths this ->
  schemaAtPath this p = Some c ->
  children c = None ->
  Transformers.lookup (type c) = None ->
  (forall v, parse h c v
             = Throw (Error ("Don't know how to resolve " +:+ type c)))
  /\ forall v r, parse h this v <> Ok r.
Proof.
  intros Hcs Hp Hc Hleaf Hty.
  assert (Hthrow : forall v, parse h c v
            = Throw (Error ("Don't know how to resolve " +:+ type c))).
  { intros v. rewrite (parse_leaf _ _ _ Hleaf). unfold parseLeaf, _run.
    by rewrite Hty. }
  split; [done|]. intros v r Hok.
  destruct (parse_branch_Ok _ _ _ _ _ Hcs Hok) as [_ Hall].
  destruct (Hall p Hp) as (k & val & Hpp).
  apply parseAtPath_key in Hpp as (c' & Hc' & _ & _ & sub & _ & Hf).
  rewrite Hc in Hc'. injection Hc' as <-. by rewrite Hthrow in Hf.
Qed.

Lemma unresolved_type_never_parses_witness :
  (forall v, parse exampleHost birthdayLeaf v
             = Throw (Error "Don't know how to resolve Birthday"))
  /\ forall v r, parse exampleHost birthdaySchema v <> Ok r.
Proof.
  refine (unresolved_type_never_parses exampleHost birthdaySchema _
            "birthday" birthdayLeaf eq_refl _ eq_refl eq_refl eq_refl).
  by_decide.
Defined.

(** A type named like a property of [Object.prototype] does get something
    from the table: the leaf returns [undefined] for an optional
    [undefined], and fails on the missing [parse] for any other input. *)
Example inherited_type_is_looked_up :
  parse exampleHost (mkSchema "f" "" "constructor" [] None) VUndefined
  = Ok VUndefined
  /\ parse exampleHost (mkSchema "f" "" "constructor" [] None) (VString "x")
     = Throw (TypeError "Cannot read property 'call' of undefined").
Proof. split; reflexivity. Qed.

(** X2: a [required] setting given as a pair whose first element is falsy is
    not enforced, but it does not make the field optional either: the pair
    itself is truthy, so the [undefined] short-circuit of [_run] is skipped
    and every input, [undefined] included, goes to the transformer. *)
Theorem required_pair_falsy h this v r msg t :
  children this = None ->
  Transformers.lookup (type this) = Some t ->
  setting this "required" = VArray [r; msg] ->
  truthy r = false ->
  parse h this v = t h this (withDefault h this v).
Proof.
  intros Hleaf Ht Hreq Hr. rewrite (parse_leaf _ _ _ Hleaf).
  unfold parseLeaf, _run. rewrite Ht, Hreq. unfold falsy. simpl.
  rewrite andb_false_r, andb_true_r, Hr.
  by destruct (negb (truthy (withDefault h this v))).
Qed.

Lemma required_pair_falsy_witness :
  parse exampleHost softRequiredLeaf VUndefined
  = Throw (Error "Invalid number").
Proof.
  exact (required_pair_falsy exampleHost softRequiredLeaf VUndefined
           (VBool false) (VString "Age is required") Transformers.Number_parse
           eq_refl eq_refl eq_refl eq_refl).
Defined.

(** X3: whatever a Number leaf returns is [undefined] or a number that is
    not NaN. *)
Theorem Number_result h this v r :
  children this = None ->
  type this = "Number" ->
  parse h this v = Ok r ->
  r = VUndefined \/ exists z, r = VNumber (Fin z).
Proof.
  intros Hleaf Hty. rewrite (parse_leaf _ _ _ Hleaf).
  unfold parseLeaf, _run. rewrite Hty. simpl.
  destruct (is_undefined _ && _); [intros [= <-]; by left|].
  match goal with
  | |- bind ?x _ = _ -> _ => destruct x; simpl; [|discriminate]
  end.
  unfold Transformers.Number_parse.
  destruct (toNumber h (withDefault h this v)) as [[|z]|e]; simpl;
    try discriminate.
  intros [= <-]. right. by exists z.
Qed.

Lemma Number_result_witness :
  VNumber (Fin 36) = VUndefined \/ exists z, VNumber (Fin 36) = VNumber (Fin z).
Proof.
  exact (Number_result exampleHost ageLeaf (VString "36") (VNumber (Fin 36))
           eq_refl eq_refl eq_refl).
Defined.




(** What [toString] returns is returned as it is: with the example host the
    method named [five] returns the number [5]. *)
Example toString_result_is_returned :
  parse exampleHost plainNameLeaf (VObject [("toString", VFunction "five")])
  = Ok (VNumber (Fin 5)).
Proof. reflexivity. Qed.

(** A [maxlength] of [0] is falsy and therefore not enforced. *)
Example maxlength_zero_not_enforced :
  parse exampleHost
    (mkSchema "nick" "" "String" [("maxlength", VNumber (Fin 0))] None)
    (VString "tin")
  = Ok (VString "tin").
Proof. reflexivity. Qed.

Lemma taggedBy_validation this m v :
  taggedBy this (ValidationError m [] v (Some this)).
Proof. by intros ???? [= _ <- _ <-]. Qed.

Lemma taggedBy_type this m : taggedBy this (TypeError m).
Proof. intros ???? [=]. Qed.

Lemma taggedBy_plain this m : taggedBy this (Error m).
Proof. intros ???? [=]. Qed.

#[local] Hint Resolve taggedBy_validation taggedBy_type taggedBy_plain : leaf.

Lemma transformer_tagged h this ty t v e :
  Transformers.lookup ty = Some t -> t h this v = Throw e -> taggedBy this e.
Proof.
  intros Ht H.
  destruct (transformer_thrown _ _ _ _ _ _ Ht H)
    as [[[m ->]|(m & val & ->)]|[->| ->]]; eauto with leaf.
Qed.

(** X5: every [ValidationError] a leaf throws was made by [throwError]: its
    [field] is the leaf itself and it has no child errors.  (The other
    errors a leaf throws are plain errors without a field.) *)
Theorem leaf_validation_error_tagged h this v m errs val fld :
  children this = None ->
  parse h this v = Throw (ValidationError m errs val fld) ->
  fld = Some this /\ errs = [].
Proof.
  intros Hleaf. rewrite (parse_leaf _ _ _ Hleaf).
  unfold parseLeaf, _run. intros H.
  assert (Ht : taggedBy this (ValidationError m errs val fld));
    [|by apply (Ht m errs val fld)].
  destruct (Transformers.lookup (type this)) as [t|] eqn:Hty; [|discriminate].
  destruct (is_undefined _ && _); [discriminate|].
  match type of H with
  | bind ?r _ = _ => destruct r as [[]|e'] eqn:Hr; simpl in H
  end.
  - by eapply transformer_tagged.
  - injection H as ->. leaf_throw. subst. apply taggedBy_validation.
Qed.

Lemma leaf_validation_error_tagged_witness :
  Some nameLeaf = Some nameLeaf /\ @nil error = [].
Proof.
  exact (leaf_validation_error_tagged exampleHost nameLeaf VUndefined
           "Field name is required" [] VUndefined (Some nameLeaf)
           eq_refl eq_refl).
Defined.

(** X6: a Date leaf whose [required] setting is falsy never rejects a
    primitive value (a string, a number, a boolean, [null]): the [Date]
    transformer builds a date from it, valid or not, so the result is
    [undefined] or a date.  (The only error left is the TypeError of
    [Date.parse] on an object that cannot be converted to a string.) *)
Theorem Date_never_rejects h this v :
  children this = None ->
  type this = "Date" ->
  truthy (setting this "required") = false ->
  isPrimitive (withDefault h this v) = true ->
  exists r, parse h this v = Ok r
            /\ (r = VUndefined \/ exists t, r = VDate t).
Proof.
  intros Hleaf Hty Hreq Hprim. rewrite (parse_leaf _ _ _ Hleaf).
  unfold parseLeaf, _run. rewrite Hty. simpl. unfold falsy. rewrite Hreq.
  rewrite andb_false_r, andb_true_r. simpl.
  destruct (withDefault h this v) as [| |b|[|z]|str| | | | |];
    try discriminate; simpl;
    (eexists; split; [reflexivity|]); (by left) || (right; by eexists).
Qed.

Lemma Date_never_rejects_witness :
  exists r, parse exampleHost dateLeaf (VString "Somewhere in the 80s") = Ok r
            /\ (r = VUndefined \/ exists t, r = VDate t).
Proof.
  exact (Date_never_rejects exampleHost dateLeaf
           (VString "Somewhere in the 80s") eq_refl eq_refl eq_refl eq_refl).
Defined.

(** X7: a Function leaf returns a function it is given unchanged, whatever
    its settings, and throws the plain error "Invalid function" for every
    other truthy value. *)
Theorem Function_leaf h this :
  children this = None ->
  type this = "Function" ->
  (forall f, parse h this (VFunction f) = Ok (VFunction f))
  /\ (forall v, truthy v = true -> typeof v <> TyFunction ->
                parse h this v = Throw (Error "Invalid function")).
Proof.
  intros Hleaf Hty. split.
  - intros f. rewrite (parse_leaf _ _ _ Hleaf).
    unfold parseLeaf, _run, withDefault. rewrite Hty. simpl.
    by rewrite andb_false_r.
  - intros v Hv Hnf. rewrite (parse_leaf _ _ _ Hleaf).
    assert (Hwd : withDefault h this v = v)
      by (unfold withDefault, falsy; by rewrite Hv, andb_false_r).
    unfold parseLeaf, _run. rewrite Hwd, Hty. unfold falsy at 2.
    rewrite Hv. cbn [negb andb Transformers.lookup String.eqb Ascii.eqb
                     Bool.eqb bind].
    destruct v; try done; by destruct (falsy _).
Qed.

Lemma Function_leaf_witness :
  (forall f, parse exampleHost callbackLeaf (VFunction f) = Ok (VFunction f))
  /\ (forall v, truthy v = true -> typeof v <> TyFunction ->
                parse exampleHost callbackLeaf v
                = Throw (Error "Invalid function")).
Proof.
  exact (Function_leaf exampleHost callbackLeaf eq_refl eq_refl).
Defined.

(** ** The constructor *)

Lemma newSchema_object kvs nm pp :
  newSchema (VObject kvs) nm pp
  = if falsy (ownProp (VObject kvs) "type") then
      let* cs := buildChildren
                   (fun d prop => newSchema d prop (joinPath pp nm)) kvs in
      Ok (mkSchema nm pp "Schema" [] (Some cs))
    else
      let* ty := guessType (VObject kvs) in
      Ok (mkSchema nm pp ty (leafSettings (VObject kvs)) None).
Proof.
  cbn [newSchema]. destruct (falsy (ownProp (VObject kvs) "type")); [|done].
  f_equal. induction kvs as [|[prop d] kvs IH]; [done|].
  cbn [buildChildren]. by rewrite <- IH.
Qed.

Lemma newSchema_array items nm pp :
  newSchema (VArray items) nm pp
  = let* cs := buildItems
                 (fun d prop => newSchema d prop (joinPath pp nm)) 0 items in
    Ok (mkSchema nm pp "Schema" [] (Some cs)).
Proof.
  cbn [newSchema]. f_equal. generalize 0%nat.
  induction items as [|d items IH]; intros i; [done|].
  cbn [buildItems]. by rewrite <- IH.
Qed.

Lemma buildChildren_Forall2 build kvs cs :
  buildChildren build kvs = Ok cs ->
  Forall2 (fun kv c => build kv.2 kv.1 = Ok c) kvs cs.
Proof.
  revert cs. induction kvs as [|[prop d] kvs IH]; intros cs; simpl.
  - intros [= <-]. constructor.
  - destruct (build d prop) as [c|] eqn:Hc; simpl; [|discriminate].
    destruct (buildChildren build kvs) as [cs'|]; simpl; [|discriminate].
    intros [= <-]. constructor; [done | by apply IH].
Qed.

Lemma buildItems_Forall build i items cs :
  buildItems build i items = Ok cs ->
  Forall (fun c => exists d prop, d ∈ items /\ build d prop = Ok c) cs.
Proof.
  revert i cs. induction items as [|d items IH]; intros i cs; simpl.
  - intros [= <-]. constructor.
  - destruct (build d (indexKey i)) as [c|] eqn:Hc; simpl; [|discriminate].
    destruct (buildItems build (S i) items) as [cs'|] eqn:Hcs; simpl;
      [|discriminate].
    intros [= <-]. constructor.
    + exists d, (indexKey i). split; [left | done].
    + eapply Forall_impl; [by eapply IH|].
      intros c' (d' & prop & Hin & Hb). exists d', prop.
      split; [by right|done].
Qed.

Lemma assoc_filter_type (kvs : list (string * value)) :
  assoc "type" (filter (fun kv => negb (String.eqb kv.1 "type")) kvs) = None.
Proof.
  induction kvs as [|[k v] kvs IH]; [done|].
  rewrite filter_cons. destruct (decide _) as [Hk|Hk]; [|done].
  simpl in *. by destruct (String.eqb k "type").
Qed.

Lemma Forall2_Forall_r {A B : Type} (R : A -> B -> Prop) l k :
  Forall2 R l k -> Forall (fun b => exists a, a ∈ l /\ R a b) k.
Proof.
  induction 1 as [|a b l k Hab Hall IH]; constructor.
  - exists a. split; [left | done].
  - eapply Forall_impl; [exact IH|].
    intros b' (a' & Hin & HR). exists a'. split; [by right | done].
Qed.

Lemma built_children here (ds : list value) cs :
  Forall (fun d => forall nm pp s, newSchema d nm pp = Ok s ->
                                   builtRight nm pp s) ds ->
  Forall (fun c => exists d prop, d ∈ ds /\ newSchema d prop here = Ok c) cs ->
  forallb (fun c => String.eqb (parentPath c) here && wellParented c) cs
  = true
  /\ forallb noTypeSetting cs = true.
Proof.
  intros IH Hcs. rewrite Forall_forall in IH.
  split; apply forallb_forall; intros c Hc%list_elem_of_In;
    rewrite Forall_forall in Hcs;
    destruct (Hcs c Hc) as (d & prop & Hd & Hb);
    destruct (IH d Hd _ _ _ Hb) as (_ & Hpp & Hwp & Hnt); [|done].
  rewrite Hpp, String.eqb_refl. done.
Qed.

Lemma newSchema_built d nm pp s :
  newSchema d nm pp = Ok s -> builtRight nm pp s.
Proof.
  revert nm pp s.
  induction d as [| |b|n|str|kvs IH|items IH|f|t|re] using value_tree_ind;
    intros nm pp s; try (by intros [= <-]).
  - rewrite newSchema_object.
    destruct (falsy (ownProp (VObject kvs) "type")).
    + destruct (buildChildren _ kvs) as [cs|] eqn:Hcs; simpl; [|discriminate].
      intros [= <-].
      apply buildChildren_Forall2, Forall2_Forall_r in Hcs.
      destruct (built_children (joinPath pp nm) (map snd kvs) cs) as [H1 H2].
      * apply Forall_forall. intros d [kv [-> Hkv]]%list_elem_of_fmap.
        rewrite Forall_forall in IH. by apply IH.
      * eapply Forall_impl; [exact Hcs|].
        intros c (kv & Hkv & Hb). exists kv.2, kv.1.
        split; [by apply list_elem_of_fmap_2 | done].
      * repeat split; simpl; [done|]. by rewrite H2.
    + destruct (guessType (VObject kvs)) as [ty|]; simpl; [|discriminate].
      intros [= <-]. repeat split. simpl.
      unfold leafSettings. by rewrite assoc_filter_type.
  - rewrite newSchema_array.
    destruct (buildItems _ 0 items) as [cs|] eqn:Hcs; simpl; [|discriminate].
    intros [= <-]. apply buildItems_Forall in Hcs.
    destruct (built_children (joinPath pp nm) items cs IH Hcs) as [H1 H2].
    repeat split; simpl; [done|]. by rewrite H2.
Qed.

(** X8: in the tree the constructor builds from a definition that holds no
    already built [Schema], the node has the name it was given and every
    child, at every depth, records the full path of the node that holds it,
    so [fullPath] is the dotted path from the root. *)
Theorem constructor_links_parents d nm pp s :
  newSchema d nm pp = Ok s ->
  name s = nm /\ parentPath s = pp /\ wellParented s = true.
Proof. intros H. by destruct (newSchema_built _ _ _ _ H) as (? & ? & ? & _). Qed.

Lemma constructor_links_parents_witness :
  name addressSchema = "" /\ parentPath addressSchema = ""
  /\ wellParented addressSchema = true.
Proof.
  exact (constructor_links_parents
           (VObject [("address", VObject [("line1", VFunction "String")])])
           "" "" addressSchema eq_refl).
Defined.

(** A branch that adopts the instance built from [{line1: String}] under
    the name [address] gets a child named [address] whose own child still
    records the root of the instance as its parent: its full path is
    [line1], while [paths] lists it as [address.line1]. *)
Example adopted_children_keep_their_parent :
  let inst := mkSchema "" "" "Schema" []
                (Some [mkSchema "line1" "" "String" [] None]) in
  let root := mkSchema "" "" "Schema" []
                (Some [adoptSchema (mkSchema "" "" "Schema" [] None)
                         "address" inst]) in
  newSchema (VObject [("line1", VFunction "String")]) "" "" = Ok inst
  /\ wellParented root = false
  /\ map fullPath (leaves root) = ["line1"]
  /\ paths root = ["address.line1"].
Proof. repeat split. Qed.

(** X9: no node of the tree the constructor returns keeps a [type] among
    its settings. *)
Theorem settings_never_hold_type d nm pp s :
  newSchema d nm pp = Ok s -> noTypeSetting s = true.
Proof. intros H. by destruct (newSchema_built _ _ _ _ H) as (_ & _ & _ & ?). Qed.

Lemma settings_never_hold_type_witness : noTypeSetting postSchema = true.
Proof.
  exact (settings_never_hold_type postDefinition "" "" postSchema eq_refl).
Defined.

(** X10: a mapping without a truthy [type] is built into a branch of type
    "Schema" with one child per key, named after the key, in key order. *)
Theorem children_follow_keys kvs nm pp s :
  falsy (ownProp (VObject kvs) "type") = true ->
  newSchema (VObject kvs) nm pp = Ok s ->
  type s = "Schema" /\ ownPaths s = map fst kvs.
Proof.
  intros Hty. rewrite newSchema_object, Hty.
  destruct (buildChildren _ kvs) as [cs|] eqn:Hcs; simpl; [|discriminate].
  intros [= <-]. split; [done|]. unfold ownPaths. simpl.
  apply buildChildren_Forall2 in Hcs. clear Hty.
  induction Hcs as [|kv c kvs cs Hc Hall IH]; [done|]. simpl.
  destruct (newSchema_built _ _ _ _ Hc) as (-> & _). by rewrite IH.
Qed.

Lemma children_follow_keys_witness :
  type postSchema = "Schema"
  /\ ownPaths postSchema = ["title"; "body"; "published"].
Proof.
  match eval unfold postDefinition in postDefinition with
  | VObject ?kvs =>
      exact (children_follow_keys kvs "" "" postSchema eq_refl eq_refl)
  end.
Defined.

Lemma guessType_throws d e :
  guessType d = Throw e ->
  e = TypeError "Cannot read property 'type' of null".
Proof.
  revert e.
  induction d as [| |b|n|str|kvs IH|items IH|f|t|re] using value_tree_ind;
    intros e; try discriminate; [by intros [= <-]|].
  cbn [guessType]. induction IH as [|[k v] kvs Hv _ IHkvs]; [discriminate|].
  simpl in Hv. destruct (String.eqb k "type"); [|done].
  destruct (truthy v); [apply Hv | discriminate].
Qed.

Lemma buildChildren_throws build kvs e :
  buildChildren build kvs = Throw e ->
  exists kv, kv ∈ kvs /\ build kv.2 kv.1 = Throw e.
Proof.
  induction kvs as [|[prop d] kvs IH]; simpl; [discriminate|].
  destruct (build d prop) as [c|e'] eqn:Hc; simpl.
  - destruct (buildChildren build kvs) as [cs|e'']; simpl; [discriminate|].
    intros [= <-]. destruct (IH eq_refl) as (kv & Hin & Hb).
    exists kv. split; [by right | done].
  - intros [= <-]. exists (prop, d). split; [left | done].
Qed.

Lemma buildItems_throws build i items e :
  buildItems build i items = Throw e ->
  exists d prop, d ∈ items /\ build d prop = Throw e.
Proof.
  revert i. induction items as [|d items IH]; intros i; simpl; [discriminate|].
  destruct (build d (indexKey i)) as [c|e'] eqn:Hc; simpl.
  - destruct (buildItems build (S i) items) as [cs|e''] eqn:Hcs; simpl;
      [discriminate|].
    intros [= <-]. destruct (IH _ Hcs) as (d' & prop & Hin & Hb).
    exists d', prop. split; [by right | done].
  - intros [= <-]. exists d, (indexKey i). split; [left | done].
Qed.

(** X11: the constructor checks nothing about the settings: the only error
    it can throw is the TypeError of reading [type] from a [null] found in
    the definition. *)
Theorem constructor_fails_on_null_only d nm pp e :
  newSchema d nm pp = Throw e ->
  e = TypeError "Cannot read property 'type' of null".
Proof.
  revert nm pp e.
  induction d as [| |b|n|str|kvs IH|items IH|f|t|re] using value_tree_ind;
    intros nm pp e; try discriminate; [by intros [= <-]| |].
  - rewrite newSchema_object.
    destruct (falsy (ownProp (VObject kvs) "type")).
    + destruct (buildChildren _ kvs) as [cs|e'] eqn:Hcs; simpl; [discriminate|].
      intros [= <-]. apply buildChildren_throws in Hcs as (kv & Hin & Hb).
      rewrite Forall_forall in IH. by eapply IH.
    + destruct (guessType (VObject kvs)) as [ty|e'] eqn:Hg; simpl;
        [discriminate|].
      intros [= <-]. by eapply guessType_throws.
  - rewrite newSchema_array.
    destruct (buildItems _ 0 items) as [cs|e'] eqn:Hcs; simpl; [discriminate|].
    intros [= <-]. apply buildItems_throws in Hcs as (d & prop & Hin & Hb).
    rewrite Forall_forall in IH. by eapply IH.
Qed.

Lemma constructor_fails_on_null_only_witness :
  TypeError "Cannot read property 'type' of null"
  = TypeError "Cannot read property 'type' of null".
Proof.
  exact (constructor_fails_on_null_only
           (VObject [("name", VFunction "String"); ("address", VNull)])
           "" "" _ eq_refl).
Defined.

(** ** Paths *)

Lemma append_assoc (a b c : string) : (a +:+ b) +:+ c = a +:+ (b +:+ c).
Proof.
  induction a as [|x a IH]; [reflexivity|].
  change (String x ((a +:+ b) +:+ c) = String x (a +:+ (b +:+ c))).
  by f_equal.
Qed.

Lemma append_empty_r (a b : string) : a +:+ b = "" -> b = "".
Proof. by destruct a. Qed.

Lemma eqb_empty (a : string) : String.eqb a "" = false -> a <> "".
Proof. intros H ->. discriminate. Qed.

Lemma joinPath_nested pp nm path :
  nm <> "" \/ pp = "" ->
  joinPath pp ((if String.eqb nm "" then "" else nm +:+ ".") +:+ path)
  = joinPath (joinPath pp nm) path.
Proof.
  intros Hside. unfold joinPath.
  destruct (String.eqb nm "") eqn:Hnm.
  - apply String.eqb_eq in Hnm. subst nm.
    destruct Hside as [?| ->]; [done|]. done.
  - destruct (String.eqb ((if String.eqb pp "" then "" else pp +:+ ".")
                          +:+ nm) "") eqn:E.
    + apply String.eqb_eq, append_empty_r in E. subst. discriminate.
    + by rewrite !append_assoc.
Qed.

Lemma forallb_elem {A : Type} (f : A -> bool) l x :
  forallb f l = true -> x ∈ l -> f x = true.
Proof.
  intros H Hx. rewrite forallb_forall in H. by apply H, list_elem_of_In.
Qed.

(** The paths of a node, taken from its parent's full path, are the full
    paths of its leaves. *)
Lemma paths_leaves s :
  wellParented s = true ->
  branchesNamed s = true ->
  name s <> "" \/ parentPath s = "" \/ children s = None ->
  map (joinPath (parentPath s)) (paths s) = map fullPath (leaves s).
Proof.
  induction s as [nm pp ty st|nm pp ty st cs IH] using Schema_tree_ind;
    intros Hwp Hbn Hside; [done|].
  simpl in *.
  assert (Hside' : nm <> "" \/ pp = "")
    by (destruct Hside as [?|[?|?]]; [by left | by right | done]).
  clear Hside. induction IH as [|c cs Hc _ IHcs]; [done|].
  simpl in Hwp, Hbn.
  apply andb_true_iff in Hwp as [Hc1 Hwp].
  apply andb_true_iff in Hc1 as [Hpc Hwc].
  apply andb_true_iff in Hbn as [Hc2 Hbn].
  apply andb_true_iff in Hc2 as [Hnc Hbc].
  apply String.eqb_eq in Hpc.
  simpl. rewrite !map_app, (IHcs Hwp Hbn). f_equal.
  rewrite <- Hc; [|done|done|].
  - rewrite Hpc, map_map. apply map_ext. intros path.
    by apply joinPath_nested.
  - apply orb_true_iff in Hnc as [Hn|Hl].
    + left. apply eqb_empty. by apply negb_true_iff.
    + right. right. apply negb_true_iff, bool_decide_eq_false in Hl.
      destruct (children c); [|done]. exfalso. apply Hl. by eexists.
Qed.

(** X12: in a tree in which every child records the full path of the node
    that holds it (as in every tree the constructor builds from a
    definition that holds no already built [Schema]) and in which no branch
    below the root has an empty name, [paths] of the root lists exactly the
    full paths of the leaves, in declaration order. *)
Theorem paths_are_leaf_full_paths s :
  wellParented s = true ->
  branchesNamed s = true ->
  parentPath s = "" ->
  paths s = map fullPath (leaves s).
Proof.
  intros Hwp Hbn Hpp.
  rewrite <- (paths_leaves s Hwp Hbn) by (right; by left).
  rewrite Hpp. induction (paths s) as [|x l IH]; [done|].
  simpl. by rewrite <- IH.
Qed.

Lemma paths_are_leaf_full_paths_witness :
  paths postSchema = map fullPath (leaves postSchema).
Proof.
  exact (paths_are_leaf_full_paths postSchema eq_refl eq_refl eq_refl).
Defined.

Lemma paths_prefixed s cs f :
  children s = Some cs ->
  name s <> "" ->
  f ∈ paths s ->
  exists rest, f = name s +:+ "." +:+ rest.
Proof.
  destruct s as [nm pp ty st [cs'|]]; simpl; [|discriminate].
  intros _ Hnm Hf.
  apply list_elem_of_In, in_flat_map in Hf as (c & _ & Hf).
  apply in_map_iff in Hf as (path & <- & _).
  destruct (String.eqb nm "") eqn:E;
    [by apply String.eqb_eq in E|].
  exists path. by rewrite append_assoc.
Qed.

Lemma filter_all {A : Type} (f : A -> bool) (l : list A) :
  Forall (fun x => f x = true) l -> filter f l = l.
Proof.
  induction 1 as [|x l Hx Hall IH]; [done|].
  rewrite filter_cons, IH. destruct (decide _) as [|Hn]; [done|].
  by rewrite Hx in Hn.
Qed.

(** X13: the paths of a named branch all start with its own name, while the
    keys of the mapping it is given do not: when a named branch rejects a
    mapping for an unknown own key, it reports every flattened key of the
    mapping as unknown, the declared ones included. *)
Theorem named_branch_reports_every_key h this cs kvs :
  children this = Some cs ->
  name this <> "" ->
  (exists k, k ∈ map fst kvs /\ k ∉ ownPaths this) ->
  Forall (fun f => forall rest, f <> name this +:+ "." +:+ rest)
         (obj2dot (VObject kvs)) ->
  parse h this (VObject kvs)
  = Throw (ValidationError "Invalid object schema"
             (map (fun f => Error ("Unknown property " +:+ f))
                  (obj2dot (VObject kvs)))
             (VObject kvs) None).
Proof.
  intros Hcs Hnm (k & Hk & Hn) Hkeys.
  rewrite (parse_branch _ _ _ _ Hcs). unfold _parseNested.
  rewrite structureValidation_rejects;
    [|done|by eapply propertiesRestricted_unknown].
  simpl. unfold unknownFields. rewrite filter_all; [done|].
  eapply Forall_impl; [exact Hkeys|]. intros f Hf.
  apply negb_true_iff, bool_decide_eq_false. intros Hin.
  destruct (paths_prefixed _ _ _ Hcs Hnm Hin) as [rest ->]. by apply (Hf rest).
Qed.

Lemma named_branch_reports_every_key_witness :
  parse exampleHost addressBranch
    (VObject [("line1", VString "x"); ("zip", VNumber (Fin 1))])
  = Throw (ValidationError "Invalid object schema"
             [Error "Unknown property line1"; Error "Unknown property zip"]
             (VObject [("line1", VString "x"); ("zip", VNumber (Fin 1))])
             None).
Proof.
  refine (named_branch_reports_every_key exampleHost addressBranch _
            [("line1", VString "x"); ("zip", VNumber (Fin 1))]
            eq_refl _ _ _).
  - discriminate.
  - exists "zip". split; by_decide.
  - repeat constructor; intros rest; discriminate.
Defined.

(** ** Branches *)

(** X14: an own path is resolved through its first segment only, so a child
    whose name has a dot is looked up under the part before the dot; when no
    child has that name the lookup yields nothing and the branch never
    returns, whatever the input. *)
Theorem unresolved_path_never_parses h this cs p :
  children this = Some cs ->
  p ∈ ownPaths this ->
  schemaAtPath this p = None ->
  forall v r, parse h this v <> Ok r.
Proof.
  intros Hcs Hp Hnone v r Hok.
  destruct (parse_branch_Ok _ _ _ _ _ Hcs Hok) as [_ Hall].
  destruct (Hall p Hp) as (k & val & Hpp).
  apply parseAtPath_key in Hpp as (c & Hc & _). by rewrite Hnone in Hc.
Qed.

Lemma unresolved_path_never_parses_witness :
  parse exampleHost dottedSchema (VObject [("a.b", VString "x")])
  <> Ok (VObject [("a.b", VString "x")]).
Proof.
  refine (unresolved_path_never_parses exampleHost dottedSchema _ "a.b"
            eq_refl _ eq_refl _ _).
  by_decide.
Defined.

(** X15: the mapping a branch returns has declared keys only, so it passes
    the branch's own structural validation. *)
Theorem result_is_structurally_valid h this cs v r :
  children this = Some cs ->
  parse h this v = Ok r ->
  (forall k val, valueAt r k = Some val -> k ∈ ownPaths this)
  /\ structureValidation this r = Ok tt.
Proof.
  intros Hcs Hp.
  destruct (parse_branch_Ok _ _ _ _ _ Hcs Hp) as [Hs Hall].
  destruct (parse_branch_ok _ _ _ _ Hcs Hs Hall)
    as (r' & Hr' & Hiff & Hshape).
  rewrite Hp in Hr'. injection Hr' as <-.
  assert (Hkeys : forall k val, valueAt r k = Some val -> k ∈ ownPaths this).
  { intros k val Ha. apply (Hiff k val) in Ha as (_ & _ & p & _ & Hpp).
    by eapply parseAtPath_own_key. }
  split; [done|].
  destruct Hshape as [->|(kvs & -> & _)]; [done|].
  unfold structureValidation. simpl.
  replace (propertiesRestricted (VObject kvs) (ownPaths this)) with true;
    [done|].
  symmetry. unfold propertiesRestricted. simpl.
  apply forallb_forall. intros k Hk. apply bool_decide_eq_true.
  apply list_elem_of_In, assoc_key_Some in Hk as [val Ha].
  by apply (Hkeys k val).
Qed.

Lemma result_is_structurally_valid_witness :
  (forall k val,
     valueAt (VObject [("name", VString "Tin")]) k = Some val ->
     k ∈ ownPaths contactSchema)
  /\ structureValidation contactSchema (VObject [("name", VString "Tin")])
     = Ok tt.
Proof.
  exact (result_is_structurally_valid exampleHost contactSchema _
           (VObject [("name", VString "Tin")])
           (VObject [("name", VString "Tin")]) eq_refl eq_refl).
Defined.

Lemma collect_app errors e : collect errors e = errors ++ collect [] e.
Proof. by destruct e as [m|m|m [|e' es] val fld]. Qed.

Lemma fold_childStep_errors h f this obj ps acc :
  (fold_left (childStep h f this obj) ps acc).2
  = acc.2 ++ flat_map (thrownAt h f this obj) ps.
Proof.
  revert acc. induction ps as [|p ps IH]; intros acc; simpl.
  - by rewrite app_nil_r.
  - rewrite IH. unfold childStep, thrownAt.
    destruct (parseAtPath h f this obj p) as [[k val]|e]; simpl.
    + by destruct (is_undefined val).
    + by rewrite collect_app, <- app_assoc.
Qed.

(** The outcome of a branch after a successful structural pre-pass. *)
Lemma parse_branch_outcome h this cs v :
  children this = Some cs ->
  structureValidation this v = Ok tt ->
  let errs := flat_map (thrownAt h (parse h) this v) (ownPaths this) in
  (errs = [] -> exists r, parse h this v = Ok r)
  /\ (errs <> [] ->
      parse h this v
      = Throw (ValidationError "Data is not valid" errs VUndefined None)).
Proof.
  intros Hcs Hs errs. rewrite (parse_branch _ _ _ _ Hcs).
  unfold _parseNested. rewrite Hs. simpl. unfold parseFields.
  pose proof (fold_childStep_errors h (parse h) this v (ownPaths this)
                ([], []))
    as Hfold.
  destruct (fold_left _ _ _) as [res errs']. simpl in Hfold.
  fold errs in Hfold. subst errs'.
  destruct errs as [|e errs]; split; try done. by eexists.
Qed.

(** X16: after a successful structural pre-pass the branch fails exactly
    when some own path throws, and the composite "Data is not valid" then
    holds what each own path threw, in the order of the own paths: the
    child errors of a composite spliced in, any other error as it is. *)
Theorem errors_in_declaration_order h this cs v :
  children this = Some cs ->
  structureValidation this v = Ok tt ->
  let errs := flat_map (thrownAt h (parse h) this v) (ownPaths this) in
  (errs = [] -> exists r, parse h this v = Ok r)
  /\ (errs <> [] ->
      parse h this v
      = Throw (ValidationError "Data is not valid" errs VUndefined None)).
Proof. apply parse_branch_outcome. Qed.

Lemma errors_in_declaration_order_witness :
  parse exampleHost profileSchema (VObject [("age", VString "old")])
  = Throw (ValidationError "Data is not valid"
             [ValidationError "Field name is required" [] VUndefined
                (Some (mkSchema "name" "" "String" [("required", VBool true)]
                         None));
              Error "Invalid number";
              Error "Don't know how to resolve Birthday"]
             VUndefined None).
Proof.
  refine (proj2 (errors_in_declaration_order exampleHost profileSchema _
                   (VObject [("age", VString "old")]) eq_refl eq_refl) _).
  discriminate.
Defined.

(** X17: [null] passes the structural pre-pass but cannot be indexed: a
    branch with at least one child given [null] throws "Data is not valid"
    holding one TypeError per own path. *)
Theorem null_input_fails h this cs :
  children this = Some cs ->
  cs <> [] ->
  exists errs,
    parse h this VNull
    = Throw (ValidationError "Data is not valid" errs VUndefined None)
    /\ length errs = length cs
    /\ Forall (fun e => exists m, e = TypeError m) errs.
Proof.
  intros Hcs Hne.
  assert (Hone : forall p, exists m,
            thrownAt h (parse h) this VNull p = [TypeError m]).
  { intros p. unfold thrownAt, parseAtPath.
    destruct (schemaAtPath this p); by eexists. }
  assert (Hall : forall ps,
            length (flat_map (thrownAt h (parse h) this VNull) ps) = length ps
            /\ Forall (fun e => exists m, e = TypeError m)
                      (flat_map (thrownAt h (parse h) this VNull) ps)).
  { induction ps as [|p ps [IH1 IH2]]; [by split|]. simpl.
    destruct (Hone p) as [m ->]. simpl. split; [by rewrite IH1|].
    constructor; [by eexists | done]. }
  destruct (Hall (ownPaths this)) as [Hlen Htype].
  exists (flat_map (thrownAt h (parse h) this VNull) (ownPaths this)).
  split; [|split; [|done]].
  - apply (parse_branch_outcome h this cs VNull Hcs eq_refl).
    intros Hnil. rewrite Hnil in Hlen. unfold ownPaths in Hlen.
    rewrite Hcs in Hlen. simpl in Hlen. rewrite length_map in Hlen.
    by destruct cs.
  - rewrite Hlen. unfold ownPaths. rewrite Hcs. simpl. apply length_map.
Qed.

Lemma null_input_fails_witness :
  exists errs,
    parse exampleHost contactSchema VNull
    = Throw (ValidationError "Data is not valid" errs VUndefined None)
    /\ length errs = 2%nat
    /\ Forall (fun e => exists m, e = TypeError m) errs.
Proof.
  refine (null_input_fails exampleHost contactSchema _ eq_refl _).
  discriminate.
Defined.

Lemma subValue_absent h v prop :
  falsy v = true -> v <> VNull -> subValue h v prop = Ok VUndefined.
Proof. intros Hf Hn. by destruct v. Qed.

(** X18: a branch treats every falsy input other than [null] (undefined,
    false, 0, NaN, the empty string) like [undefined]: each own path is
    parsed from [undefined].  The empty mapping is treated the same way when
    no child is named like a property that a mapping inherits (such as
    [constructor] or [toString], which the empty mapping does have). *)
Theorem absent_inputs_alike h this cs v :
  children this = Some cs ->
  (falsy v = true /\ v <> VNull)
  \/ (v = VObject []
      /\ Forall (fun c => hostInherited h (VObject []) (name c) = VUndefined)
                cs) ->
  parse h this v = parse h this VUndefined.
Proof.
  intros Hcs Hv. rewrite !(parse_branch _ _ _ _ Hcs). unfold _parseNested.
  assert (Hs : structureValidation this v = Ok tt).
  { unfold structureValidation. destruct Hv as [[-> _]|[-> _]]; done. }
  rewrite Hs. simpl. unfold parseFields.
  rewrite (fold_childStep_same h (parse h) this v VUndefined); [done|].
  intros p _. unfold parseAtPath.
  destruct (schemaAtPath this p) as [c|] eqn:Hc; [|done].
  replace (subValue h v (name c)) with (@Ok value VUndefined); [done|].
  symmetry. destruct Hv as [[Hf Hn]|[-> Hno]]; [by apply subValue_absent|].
  destruct (schemaAtPath_child _ _ _ Hc) as (cs' & Hcs' & Hin).
  rewrite Hcs in Hcs'. injection Hcs' as <-.
  rewrite Forall_forall in Hno. unfold subValue, getProp. simpl.
  by rewrite (Hno c Hin).
Qed.

Lemma absent_inputs_alike_witness :
  parse exampleHost postSchema (VObject [])
  = parse exampleHost postSchema VUndefined.
Proof.
  refine (absent_inputs_alike exampleHost postSchema _ (VObject []) eq_refl
            (or_intror (conj eq_refl _))).
  repeat constructor.
Defined.

(** The empty mapping does have a [constructor]: a child of that name is
    given the inherited function, not [undefined]. *)
Example inherited_key_is_read :
  subValue exampleHost (VObject []) "constructor"
  = Ok (VFunction "constructor")
  /\ subValue exampleHost VUndefined "constructor" = Ok VUndefined.
Proof. split; reflexivity. Qed.

(** What [collect] adds has no child errors when what was thrown has none
    below its own child errors. *)
Lemma collect_flat errors e :
  Forall (fun e' => childErrors e' = []) errors ->
  Forall (fun e' => childErrors e' = []) (childErrors e) ->
  Forall (fun e' => childErrors e' = []) (collect errors e).
Proof.
  intros Hacc He. rewrite collect_app. apply Forall_app. split; [done|].
  destruct e as [m|m|m [|e1 es] val fld]; simpl in *; try done;
    by repeat constructor.
Qed.

Lemma parse_flat h this :
  forall v e, parse h this v = Throw e ->
              Forall (fun e' => childErrors e' = []) (childErrors e).
Proof.
  induction this as [nm pp ty st|nm pp ty st cs IH] using Schema_tree_ind;
    intros v e Hp.
  - rewrite parse_leaf in Hp by done. apply parseLeaf_throws in Hp as [_ He].
    destruct e as [m|m|m errs val fld]; simpl; try done.
    by rewrite (He _ _ _ _ eq_refl).
  - set (this := mkSchema nm pp ty st (Some cs)) in *.
    destruct (parse_branch_throws h this cs v e eq_refl Hp)
      as [Hs|(Hs & errs & -> & ->)].
    + unfold structureValidation in Hs. destruct (falsy v); [discriminate|].
      destruct (negb _); [|discriminate]. injection Hs as <-. simpl.
      unfold unknownFields. apply Forall_forall.
      by intros x (f & <- & _)%list_elem_of_In%in_map_iff.
    + simpl. generalize (ownPaths this).
      assert (Hacc : Forall (fun e' => childErrors e' = [])
                       (@nil (string * value), @nil error).2) by constructor.
      revert Hacc. generalize (@nil (string * value), @nil error).
      intros acc Hacc ps. revert acc Hacc.
      induction ps as [|p ps IHps]; intros acc Hacc; simpl; [done|].
      apply IHps. unfold childStep.
      destruct (parseAtPath h (parse h) this v p) as [[k val]|e'] eqn:Hpp.
      * by destruct (is_undefined val).
      * simpl. apply collect_flat; [done|].
        unfold parseAtPath in Hpp.
        destruct (schemaAtPath this p) as [c|] eqn:Hc;
          [|by injection Hpp as <-].
        destruct (subValue h v (name c)) as [sub|e''] eqn:Hsub; simpl in Hpp.
        -- destruct (parse h c sub) as [val|e''] eqn:Hpc; simpl in Hpp;
             [discriminate|].
           injection Hpp as <-.
           destruct (schemaAtPath_child _ _ _ Hc) as (cs' & [= <-] & Hin).
           rewrite Forall_forall in IH. by eapply IH.
        -- injection Hpp as <-. apply subValue_throws in Hsub as [_ He].
           destruct e'' as [m|m|m errs val fld]; simpl; try done.
           by rewrite (He _ _ _ _ eq_refl).
Qed.

(** X19: the child errors of whatever [parse] throws are flat, however deep
    the schema: none of them has child errors of its own. *)
Theorem thrown_errors_are_flat h this v e :
  parse h this v = Throw e ->
  Forall (fun e' => childErrors e' = []) (childErrors e).
Proof. apply parse_flat. Qed.

Lemma thrown_errors_are_flat_witness :
  Forall (fun e' => childErrors e' = [])
         [Error "Unknown property zip"].
Proof.
  exact (thrown_errors_are_flat exampleHost addressSchema
           (VObject [("address", VObject [("zip", VNumber (Fin 1))])])
           (ValidationError "Data is not valid"
              [Error "Unknown property zip"] VUndefined None)
           eq_refl).
Defined.



(** ** More on leaves and lookups *)

(** X21: on a leaf whose [default] is truthy and not a function, every
    falsy input ([undefined], [null], [false], [0], the empty string) is
    parsed exactly as the default itself is. *)
Theorem falsy_input_parsed_as_default h this v :
  children this = None ->
  truthy (setting this "default") = true ->
  typeof (setting this "default") <> TyFunction ->
  falsy v = true ->
  parse h this v = parse h this (setting this "default").
Proof.
  intros Hleaf Hd Hnf Hv. rewrite !(parse_leaf _ _ _ Hleaf).
  unfold parseLeaf. f_equal. unfold withDefault, defaultValue, falsy.
  unfold falsy in Hv. apply negb_true_iff in Hv. rewrite Hv, Hd. simpl.
  by destruct (setting this "default").
Qed.

Lemma falsy_input_parsed_as_default_witness :
  parse exampleHost countryLeaf (VString "")
  = parse exampleHost countryLeaf (VString "United States").
Proof.
  refine (falsy_input_parsed_as_default exampleHost countryLeaf (VString "")
            eq_refl eq_refl _ eq_refl).
  discriminate.
Defined.

(** X22: in the result of a branch there is no entry for an own path whose
    child produced [undefined]; in particular, when the input has nothing
    under the name of a leaf (no own property and no inherited one), the
    result has no such key either, provided the leaf has a type the table
    resolves and neither a truthy [required] nor a truthy [default]. *)
Theorem absent_optional_field_omitted h this cs v r p c :
  children this = Some cs ->
  parse h this v = Ok r ->
  p ∈ ownPaths this ->
  schemaAtPath this p = Some c ->
  children c = None ->
  is_Some (Transformers.lookup (type c)) ->
  truthy (setting c "required") = false ->
  truthy (setting c "default") = false ->
  subValue h v (name c) = Ok VUndefined ->
  valueAt r (name c) = None.
Proof.
  intros Hcs Hp Hin Hc Hleaf [t Ht] Hreq Hdef Hsub.
  destruct (parse_branch_Ok _ _ _ _ _ Hcs Hp) as [Hs Hall].
  destruct (parse_branch_ok _ _ _ _ Hcs Hs Hall) as (r' & Hr' & Hiff & _).
  rewrite Hp in Hr'. injection Hr' as <-.
  assert (Hpp : parseAtPath h (parse h) this v p = Ok (name c, VUndefined)).
  { unfold parseAtPath. rewrite Hc, Hsub. simpl.
    rewrite (parse_leaf _ _ _ Hleaf). unfold parseLeaf, withDefault, _run.
    rewrite Hdef, Ht. simpl. unfold falsy. by rewrite Hreq. }
  destruct (valueAt r (name c)) as [val|] eqn:Hval; [|done].
  apply (Hiff _ val) in Hval as (Hne & _ & q & _ & Hq).
  by rewrite (parseAtPath_det _ _ _ _ _ _ _ _ _ Hq Hpp) in Hne.
Qed.

Lemma absent_optional_field_omitted_witness :
  valueAt (VObject [("name", VString "Tin")]) "age" = None.
Proof.
  refine (absent_optional_field_omitted exampleHost contactSchema _
            (VObject [("name", VString "Tin")])
            (VObject [("name", VString "Tin")]) "age" ageLeaf
            eq_refl eq_refl _ eq_refl eq_refl (ex_intro _ _ eq_refl)
            eq_refl eq_refl eq_refl).
  by_decide.
Defined.

(** X23: in a branch whose children have distinct names, [schemaAtPath]
    finds every child whose name has no dot under its own name. *)
Theorem schemaAtPath_own_name this cs c :
  children this = Some cs ->
  NoDup (ownPaths this) ->
  c ∈ cs ->
  firstSegment (name c) = name c ->
  schemaAtPath this (name c) = Some c.
Proof.
  intros Hcs Hnd Hc Hseg. unfold schemaAtPath, ownPaths in *.
  rewrite Hcs in *. simpl in *. rewrite Hseg. by apply find_NoDup_name.
Qed.

Lemma schemaAtPath_own_name_witness :
  schemaAtPath contactSchema "age" = Some ageLeaf.
Proof.
  refine (schemaAtPath_own_name contactSchema _ ageLeaf eq_refl _ _ eq_refl).
  - by_decide.
  - right. left.
Defined.

(** X24: a String leaf rejects with "Invalid string", tagged with the leaf
    and carrying the value, every truthy value that is neither a string nor
    an object (a number, [true], a function), and every object, array, date
    or regexp that has neither an own [hasOwnProperty] nor an own
    [toString].  (An own [hasOwnProperty] is what the leaf calls to
    decide.) *)
Theorem String_rejects_other_values h this v :
  children this = None ->
  type this = "String" ->
  truthy v = true ->
  typeof v <> TyString ->
  typeof v <> TyObject
  \/ (hasOwnProperty v "hasOwnProperty" = false
      /\ hasOwnProperty v "toString" = false) ->
  parse h this v
  = Throw (ValidationError "Invalid string" [] v (Some this)).
Proof.
  intros Hleaf Hty Hv Hns Hwhy. rewrite (parse_leaf _ _ _ Hleaf).
  assert (Hwd : withDefault h this v = v)
    by (unfold withDefault, falsy; by rewrite Hv, andb_false_r).
  unfold parseLeaf, _run. rewrite Hwd, Hty. unfold falsy at 2.
  rewrite Hv. cbn [negb andb Transformers.lookup String.eqb Ascii.eqb
                   Bool.eqb bind].
  assert (Hu : is_undefined v = false) by (by destruct v).
  rewrite Hu. cbn [andb bind].
  unfold Transformers.String_parse.
  replace (Transformers.stringOf h this v)
    with (@Throw value (ValidationError "Invalid string" [] v (Some this)));
    [done|].
  symmetry. unfold Transformers.stringOf, callHasOwnProperty.
  destruct Hwhy as [Hno|[Ho Ht]].
  - destruct v; try done; by destruct Hno.
  - rewrite Ho, Ht. destruct v; try done; by destruct Hns.
Qed.

Lemma String_rejects_other_values_witness :
  parse exampleHost plainNameLeaf (VNumber (Fin 123))
  = Throw (ValidationError "Invalid string" [] (VNumber (Fin 123))
             (Some plainNameLeaf)).
Proof.
  refine (String_rejects_other_values exampleHost plainNameLeaf
            (VNumber (Fin 123)) eq_refl eq_refl eq_refl _ (or_introl _));
    discriminate.
Defined.

(** An own [hasOwnProperty] decides: when it is not a function the leaf
    throws a TypeError, and when it returns a truthy value the leaf goes on
    to call [toString], here the inherited one. *)
Example own_hasOwnProperty_decides :
  parse exampleHost plainNameLeaf
    (VObject [("hasOwnProperty", VNumber (Fin 1))])
  = Throw (TypeError "hasOwnProperty is not a function")
  /\ parse exampleHost plainNameLeaf
       (VObject [("hasOwnProperty", VFunction "five")])
     = Ok (VString "").
Proof. split; reflexivity. Qed.
